(** * export_decomp.py: exporting decompiled functions to a file

    A shallow embedding of the Ghidra script [export_decomp.py] and the
    properties of its output file, its failure behaviour and its effects.

    The script is straight-line glue around a host: it asks the host for
    the current program, opens a decompiler session, opens one output file
    and writes one block per function whose decompilation completed.  The
    host objects and the operating system are not part of the repository;
    they are modelled as an oracle record ([Host]) and as a small world
    ([World]) with a file system, a device of limited room, buffered file
    objects, the encoding chosen by the environment and the standard
    output.  Every call the script makes is recorded, with its
    outcome, in a log, so that ordering properties can be stated. *)

From Stdlib Require Import ZArith Ascii String.
From stdpp Require Import base option strings list gmap.

(** ** Strings and paths *)

(** The escape [\n] of the Python literals. *)
Definition nl : string := String "010"%char "".

(** [s.startswith("/")] and [s.endswith("/")]. *)
Definition startswith_sep (s : string) : bool :=
  match s with
  | String c _ => bool_decide (c = "/"%char)
  | EmptyString => false
  end.

Fixpoint endswith_sep (s : string) : bool :=
  match s with
  | EmptyString => false
  | String c EmptyString => bool_decide (c = "/"%char)
  | String _ r => endswith_sep r
  end.

(** [os.path.join(a, b)] of [posixpath], for two components: an absolute
    second component replaces the first one. *)
Definition os_path_join (a b : string) : string :=
  if startswith_sep b then b
  else if bool_decide (a = "") || endswith_sep a then a +:+ b
  else a +:+ "/" +:+ b.

(** [p[:p.rfind("/") + 1]]: the part of [p] up to and including its last
    separator, [None] when [p] has no separator. *)
Fixpoint upto_last_sep (p : string) : option string :=
  match p with
  | EmptyString => None
  | String c r =>
      match upto_last_sep r with
      | Some h => Some (String c h)
      | None => if bool_decide (c = "/"%char) then Some "/" else None
      end
  end.

Fixpoint all_sep (s : string) : bool :=
  match s with
  | EmptyString => true
  | String c r => bool_decide (c = "/"%char) && all_sep r
  end.

(** [s.rstrip("/")]. *)
Fixpoint rstrip_sep (s : string) : string :=
  match s with
  | EmptyString => EmptyString
  | String c r =>
      match rstrip_sep r with
      | EmptyString => if bool_decide (c = "/"%char) then EmptyString else String c EmptyString
      | r' => String c r'
      end
  end.

(** [os.path.dirname(p)] of [posixpath]. *)
Definition os_path_dirname (p : string) : string :=
  let head := default "" (upto_last_sep p) in
  if bool_decide (head = "") || all_sep head then head else rstrip_sep head.

(** [s[:n]] and [s[n:]]. *)
Fixpoint take_str (n : nat) (s : string) : string :=
  match n, s with
  | S n', String c r => String c (take_str n' r)
  | _, _ => EmptyString
  end.

Fixpoint drop_str (n : nat) (s : string) : string :=
  match n, s with
  | S n', String _ r => drop_str n' r
  | _, _ => s
  end.

(** ** Exceptions and results *)

Inductive exn : Type :=
| FileNotFoundError
| IsADirectoryError
| OSError
| ValueError
| UnicodeEncodeError
| AttributeError
| HostException (msg : string).

Inductive result (A : Type) : Type :=
| Ok (a : A)
| Raise (e : exn).
Arguments Ok {A} a.
Arguments Raise {A} e.

Definition raised {A} (r : result A) : option exn :=
  match r with
  | Ok _ => None
  | Raise e => Some e
  end.

(** ** The world outside the script *)

(** The two writing modes of [open]; the script uses ["w"]. *)
Inductive open_mode : Type := ModeW | ModeA.

(** File objects are identified by a number. *)
Definition file := nat.

(** The machine a run starts on.  A file object opened for writing keeps
    the text not yet handed to the device.  Two parts of the platform are
    functions: which texts the encoding selected by the environment (the
    locale) can encode, and how much of the pending text a write hands on
    to the device, given what was pending and what is written. *)
Record World : Type := mkWorld {
  w_argv : list string;            (* sys.argv *)
  w_environ : gmap string string;  (* os.environ *)
  w_cwd : string;                  (* current working directory *)
  w_dirs : gset string;            (* existing directories *)
  w_files : gmap string string;    (* regular files and their contents *)
  w_space : option nat;            (* characters the device still accepts *)
  w_encodes : gmap string string -> string -> bool;
                                   (* texts the locale's encoding encodes *)
  w_flush : string -> string -> nat;
                                   (* buffering policy of file objects *)
  w_open : gmap file (string * string);
                                   (* open file objects: path, pending text *)
  w_stdout : string                (* text printed so far *)
}.

(** Whether the text [s] can be encoded on the machine [w]. *)
Definition encodes (w : World) (s : string) : bool :=
  w_encodes w (w_environ w) s.

(** How many of [k] characters the device takes. *)
Definition accepted (w : World) (k : nat) : nat :=
  match w_space w with
  | None => k
  | Some n => Nat.min n k
  end.

(** The path a file name denotes: relative names are taken from the
    current directory. *)
Definition abspath (w : World) (p : string) : string :=
  if startswith_sep p then p else os_path_join (w_cwd w) p.

Section Script.

(** Functions of the program are opaque host objects. *)
Context {Function : Type}.

(** ** The host: program, decompiler and their results *)

Record DecompiledFunction : Type := { getC : string }.

(** [getDecompiledFunction()] is [None] when the host has no result. *)
Record DecompileResults : Type := {
  decompileCompleted : bool;
  getDecompiledFunction : option DecompiledFunction
}.

(** What the host answers to the calls of the script that depend on the
    program; each of them may raise.  The two constructors,
    [getFunctionManager], the accessors of a result and [dispose] are
    taken to return. *)
Record Host : Type := {
  getName : result string;
  openProgram : result bool;
  getLanguageID : result string;
  getFunctions : bool -> result (list Function);
  decompileFunction : Function -> Z -> result DecompileResults
}.

(** ** Calls and the log *)

Inductive call : Type :=
| CGetName
| CDecompInterface
| COpenProgram
| CConsoleTaskMonitor
| COpen (path : string) (mode : open_mode)
| CWrite (f : file) (s : string)
| CClose (f : file)
| CGetLanguageID
| CGetFunctionManager
| CGetFunctions (forward : bool)
| CDecompileFunction (func : Function) (timeout : Z)
| CDecompileCompleted (func : Function)
| CGetDecompiledFunction (func : Function)
| CGetC (func : Function)
| CPrint (s : string)
| CDispose.

(** A call together with the exception it raised, if any. *)
Inductive event : Type := Ev (c : call) (r : option exn).

(** ** The monad of the script: state, exceptions and a log *)

Record Res (A : Type) : Type := mkRes {
  out : result A;
  world : World;
  log : list event
}.
Arguments mkRes {A} out world log.
Arguments out {A} r.
Arguments world {A} r.
Arguments log {A} r.

Definition M (A : Type) : Type := World -> Res A.

Definition ret {A} (a : A) : M A := fun w => mkRes (Ok a) w [].

Definition bind {A B} (m : M A) (k : A -> M B) : M B := fun w =>
  let r := m w in
  match out r with
  | Ok a => let r' := k a (world r) in mkRes (out r') (world r') (log r ++ log r')
  | Raise e => mkRes (Raise e) (world r) (log r)
  end.

(** [try: m finally: c]: [c] runs however [m] ends, and the exception of
    [m] is raised again afterwards. *)
Definition finally {A} (m : M A) (c : M unit) : M A := fun w =>
  let r := m w in
  let r' := c (world r) in
  mkRes (match out r' with Ok _ => out r | Raise e => Raise e end)
        (world r') (log r ++ log r').

#[local] Instance M_ret : MRet M := @ret.
#[local] Instance M_bind : MBind M := fun A B k m => bind m k.

Fixpoint for_each {A} (l : list A) (body : A -> M unit) : M unit :=
  match l with
  | [] => ret tt
  | x :: l' => body x ;; for_each l' body
  end.

(** ** Primitive operations *)

(** A call into the host: the answer is the host's, the world is left as
    it is. *)
Definition host {A} (c : call) (r : result A) : M A := fun w =>
  mkRes r w [Ev c (raised r)].

Definition set_files (w : World) (fs : gmap string string) : World :=
  mkWorld (w_argv w) (w_environ w) (w_cwd w) (w_dirs w) fs
          (w_space w) (w_encodes w) (w_flush w) (w_open w) (w_stdout w).

Definition set_open (w : World) (o : gmap file (string * string)) : World :=
  mkWorld (w_argv w) (w_environ w) (w_cwd w) (w_dirs w) (w_files w)
          (w_space w) (w_encodes w) (w_flush w) o (w_stdout w).

Definition set_space (w : World) (s : option nat) : World :=
  mkWorld (w_argv w) (w_environ w) (w_cwd w) (w_dirs w) (w_files w)
          s (w_encodes w) (w_flush w) (w_open w) (w_stdout w).

Definition set_stdout (w : World) (s : string) : World :=
  mkWorld (w_argv w) (w_environ w) (w_cwd w) (w_dirs w) (w_files w)
          (w_space w) (w_encodes w) (w_flush w) (w_open w) s.

(** The device appends the text [t] to the file [p]. *)
Definition device_append (w : World) (p t : string) : World :=
  set_space
    (set_files w (<[p := default "" (w_files w !! p) +:+ t]> (w_files w)))
    ((fun n => n - String.length t) <$> w_space w).

(** [open(path, mode)] for writing: the directory of the file must exist
    and the name must not be a directory; ["w"] creates or truncates the
    file, which gives the room of its old content back to the device,
    ["a"] creates it or keeps its content.  The file object starts with
    nothing pending.  Paths are taken as they are written: the model is
    for names the system resolves to themselves and does not refuse for
    another reason (an embedded NUL, an over-long component, a missing
    permission). *)
Definition open_ (path : string) (mode : open_mode) : M file := fun w =>
  let p := abspath w path in
  if bool_decide (p ∈ w_dirs w) then
    mkRes (Raise IsADirectoryError) w [Ev (COpen path mode) (Some IsADirectoryError)]
  else if bool_decide (os_path_dirname p ∈ w_dirs w) then
    let f := fresh (dom (w_open w)) in
    let old := default "" (w_files w !! p) in
    let w1 :=
      match mode with
      | ModeW =>
          set_space (set_files w (<[p := ""]> (w_files w)))
                    ((fun n => n + String.length old) <$> w_space w)
      | ModeA => set_files w (<[p := old]> (w_files w))
      end in
    mkRes (Ok f) (set_open w1 (<[f := (p, "")]> (w_open w)))
          [Ev (COpen path mode) None]
  else
    mkRes (Raise FileNotFoundError) w [Ev (COpen path mode) (Some FileNotFoundError)].

(** [f.write(s)] on a text file object.  A closed file object raises
    [ValueError]; a text the encoding cannot encode raises
    [UnicodeEncodeError] and nothing of it is kept.  Otherwise the text
    joins what is pending, the buffering policy decides how much of that
    goes to the device now, and the call raises [OSError] when the device
    takes less; what the device has not taken stays pending. *)
Definition write (f : file) (s : string) : M unit := fun w =>
  match w_open w !! f with
  | None => mkRes (Raise ValueError) w [Ev (CWrite f s) (Some ValueError)]
  | Some (p, pending) =>
      if encodes w s then
        let buf := pending +:+ s in
        let k := Nat.min (w_flush w pending s) (String.length buf) in
        let a := accepted w k in
        let w' := set_open (device_append w p (take_str a buf))
                           (<[f := (p, drop_str a buf)]> (w_open w)) in
        if bool_decide (a < k)
        then mkRes (Raise OSError) w' [Ev (CWrite f s) (Some OSError)]
        else mkRes (Ok tt) w' [Ev (CWrite f s) None]
      else
        mkRes (Raise UnicodeEncodeError) w [Ev (CWrite f s) (Some UnicodeEncodeError)]
  end.

(** [f.close()], also what leaving a [with] block does: what is pending
    goes to the device and the file object is closed in any case; the call
    raises [OSError] when the device does not take all of it.  Closing a
    closed file object does nothing. *)
Definition close (f : file) : M unit := fun w =>
  match w_open w !! f with
  | None => mkRes (Ok tt) w [Ev (CClose f) None]
  | Some (p, pending) =>
      let a := accepted w (String.length pending) in
      let w' := set_open (device_append w p (take_str a pending))
                         (delete f (w_open w)) in
      if bool_decide (a < String.length pending)
      then mkRes (Raise OSError) w' [Ev (CClose f) (Some OSError)]
      else mkRes (Ok tt) w' [Ev (CClose f) None]
  end.

(** [with open(path, mode) as f: body]: the file object is closed however
    the body ends; an exception of the closing replaces the one of the
    body. *)
Definition with_open {A} (path : string) (mode : open_mode) (body : file -> M A) : M A :=
  f ← open_ path mode;
  finally (body f) (close f).

(** [print(s)]. *)
Definition print (s : string) : M unit := fun w =>
  mkRes (Ok tt) (set_stdout w (w_stdout w +:+ s +:+ nl)) [Ev (CPrint s) None].

(** ** The script *)

Definition output_dir : string := "/Users/inoki/Builds/srcs/Rosetta2".

(** [os.path.join(output_dir, f"{program_name}_decomp.c")]. *)
Definition output_file_of (program_name : string) : string :=
  os_path_join output_dir (program_name +:+ "_decomp.c").

(** The body of the [for] loop, for one function. *)
Definition loop_body (h : Host) (f : file) (func : Function) : M unit :=
  result ← host (CDecompileFunction func 0) (decompileFunction h func 0);
  completed ← host (CDecompileCompleted func) (Ok (decompileCompleted result));
  if (completed : bool) then
    df ← host (CGetDecompiledFunction func) (Ok (getDecompiledFunction result));
    decompiled_code ← host (CGetC func)
        (match df : option DecompiledFunction with
         | Some d => Ok (getC d)
         | None => Raise AttributeError
         end);
    write f decompiled_code ;;
    write f (nl +:+ nl)
  else ret tt.

(** The block of the [with] statement, for the file object [f]. *)
Definition with_block (h : Host) (program_name : string) (f : file) : M unit :=
  write f ("// Decompiled code for " +:+ program_name +:+ nl) ;;
  language ← host CGetLanguageID (getLanguageID h);
  write f ("// Language: " +:+ language +:+ nl +:+ nl) ;;
  host CGetFunctionManager (Ok tt) ;;
  functions ← host (CGetFunctions true) (getFunctions h true);
  for_each functions (loop_body h f).

Definition script (h : Host) : M unit :=
  program_name ← host CGetName (getName h);
  let output_file := output_file_of program_name in
  host CDecompInterface (Ok tt) ;;
  host COpenProgram (openProgram h) ;;
  host CConsoleTaskMonitor (Ok tt) ;;
  with_open output_file ModeW (with_block h program_name) ;;
  print ("Decompiled code written to " +:+ output_file) ;;
  host CDispose (Ok tt).

(** ** Reading the log *)

Definition call_of (e : event) : call := match e with Ev c _ => c end.

Definition ev_ok (e : event) : Prop := match e with Ev _ r => r = None end.

(** The texts of the writes to [f] that succeeded, in order. *)
Fixpoint writes (f : file) (l : list event) : list string :=
  match l with
  | [] => []
  | Ev (CWrite f' s) None :: l' =>
      if bool_decide (f' = f) then s :: writes f l' else writes f l'
  | _ :: l' => writes f l'
  end.

Fixpoint join (l : list string) : string :=
  match l with
  | [] => ""
  | s :: l' => s +:+ join l'
  end.

Definition written (f : file) (l : list event) : string := join (writes f l).

(** Whether a write with this outcome took its text: it did when it
    returned and when it failed on the device. *)
Definition takes (r : option exn) : bool :=
  match r with
  | None | Some OSError => true
  | Some _ => false
  end.

(** The texts the file object [f] took, in order. *)
Fixpoint taken (f : file) (l : list event) : list string :=
  match l with
  | [] => []
  | Ev (CWrite f' s) r :: l' =>
      if bool_decide (f' = f) && takes r then s :: taken f l' else taken f l'
  | _ :: l' => taken f l'
  end.

(** The decompilations requested, in order. *)
Fixpoint requests (l : list event) : list (Function * Z) :=
  match l with
  | [] => []
  | Ev (CDecompileFunction func t) _ :: l' => (func, t) :: requests l'
  | _ :: l' => requests l'
  end.


Definition is_file_event (e : event) : bool :=
  match call_of e with
  | COpen _ _ | CWrite _ _ | CClose _ => true
  | _ => false
  end.

Definition is_dispose (e : event) : bool :=
  match call_of e with
  | CDispose => true
  | _ => false
  end.

(** The objects calls are made on, and the names of the methods, as the
    script spells them. *)
Inductive object : Type :=
| Builtins
| OsPath
| Program
| FunctionManager
| Results (func : Function)
| Decompiled (func : Function)
| Interface
| Monitor
| FileObject (f : file).

Definition receiver (c : call) : object :=
  match c with
  | CGetName | CGetLanguageID | CGetFunctionManager => Program
  | CGetFunctions _ => FunctionManager
  | CDecompileCompleted func | CGetDecompiledFunction func => Results func
  | CGetC func => Decompiled func
  | CDecompInterface | COpenProgram | CDecompileFunction _ _ | CDispose => Interface
  | CConsoleTaskMonitor => Monitor
  | COpen _ _ | CPrint _ => Builtins
  | CWrite f _ | CClose f => FileObject f
  end.

Definition method (c : call) : string :=
  match c with
  | CGetName => "getName"
  | CDecompInterface => "DecompInterface"
  | COpenProgram => "openProgram"
  | CConsoleTaskMonitor => "ConsoleTaskMonitor"
  | COpen _ _ => "open"
  | CWrite _ _ => "write"
  | CClose _ => "close"
  | CGetLanguageID => "getLanguageID"
  | CGetFunctionManager => "getFunctionManager"
  | CGetFunctions _ => "getFunctions"
  | CDecompileFunction _ _ => "decompileFunction"
  | CDecompileCompleted _ => "decompileCompleted"
  | CGetDecompiledFunction _ => "getDecompiledFunction"
  | CGetC _ => "getC"
  | CPrint _ => "print"
  | CDispose => "dispose"
  end.

(** The objects the host owns and lends to the script. *)
Definition host_owned (o : object) : bool :=
  match o with
  | Program | FunctionManager | Results _ | Decompiled _ => true
  | _ => false
  end.

(** The accessors of the host objects: they return a value and change
    nothing. *)
Definition accessors : list string :=
  ["getName"; "getLanguageID"; "getFunctionManager"; "getFunctions";
   "decompileCompleted"; "getDecompiledFunction"; "getC"].

(** ** What a run is expected to write *)

(** The C text of a function whose decompilation completed. *)
Definition completed_code (h : Host) (func : Function) : option string :=
  match decompileFunction h func 0 with
  | Ok r =>
      if decompileCompleted r then getC <$> getDecompiledFunction r else None
  | Raise _ => None
  end.

(** The writes one function gives rise to. *)
Definition contribution (h : Host) (func : Function) : list string :=
  match completed_code h func with
  | Some c => [c; nl +:+ nl]
  | None => []
  end.

(** The blocks of the functions whose decompilation completed, each one
    followed by the separator. *)
Definition blocks (h : Host) (funcs : list Function) : string :=
  join ((fun code => code +:+ nl +:+ nl) <$> omap (completed_code h) funcs).

Definition header (program_name language : string) : string :=
  "// Decompiled code for " +:+ program_name +:+ nl +:+
  "// Language: " +:+ language +:+ nl +:+ nl.

Definition message (program_name : string) : string :=
  "Decompiled code written to " +:+ output_file_of program_name.

(** The writes of a whole run, when nothing raises: the two header
    writes, then those of the functions. *)
Definition expected_writes (h : Host) (program_name : string) : list string :=
  ("// Decompiled code for " +:+ program_name +:+ nl) ::
  match getLanguageID h with
  | Ok language =>
      ("// Language: " +:+ language +:+ nl +:+ nl) ::
      match getFunctions h true with
      | Ok functions => flat_map (contribution h) functions
      | Raise _ => []
      end
  | Raise _ => []
  end.

(** The calls of one iteration of the loop, when nothing raises. *)
Definition iteration (h : Host) (f : file) (func : Function) : list event :=
  Ev (CDecompileFunction func 0) None ::
  Ev (CDecompileCompleted func) None ::
  match completed_code h func with
  | Some c =>
      [Ev (CGetDecompiledFunction func) None; Ev (CGetC func) None;
       Ev (CWrite f c) None; Ev (CWrite f (nl +:+ nl)) None]
  | None => []
  end.

(** The calls before the [with] block and the calls of the block before
    its loop, when nothing raises. *)
Definition setup (program_name : string) : list event :=
  [Ev CGetName None; Ev CDecompInterface None; Ev COpenProgram None;
   Ev CConsoleTaskMonitor None;
   Ev (COpen (output_file_of program_name) ModeW) None].

Definition preamble (f : file) (program_name language : string) : list event :=
  [Ev (CWrite f ("// Decompiled code for " +:+ program_name +:+ nl)) None;
   Ev CGetLanguageID None;
   Ev (CWrite f ("// Language: " +:+ language +:+ nl +:+ nl)) None;
   Ev CGetFunctionManager None;
   Ev (CGetFunctions true) None].

(** The device accepts [n] more characters. *)
Definition has_space (w : World) (n : nat) : Prop :=
  match w_space w with
  | None => True
  | Some k => n ≤ k
  end.

(** ** Invariants of the [with] block *)

(** The calls into the host made inside the block. *)
Definition query (c : call) : bool :=
  match c with
  | CGetLanguageID | CGetFunctionManager | CGetFunctions _
  | CDecompileFunction _ _ | CDecompileCompleted _
  | CGetDecompiledFunction _ | CGetC _ => true
  | _ => false
  end.

(** The calls the block may make while [f] is its file object. *)
Definition block_call (f : file) (c : call) : bool :=
  match c with
  | CWrite f' _ => bool_decide (f' = f)
  | _ => query c
  end.

(** A log agrees with an outcome when the calls before the last one
    returned, and the last one raised exactly when the outcome is that
    exception. *)
Definition disciplined {A} (o : result A) (l : list event) : Prop :=
  match o with
  | Ok _ => Forall ev_ok l
  | Raise e => ∃ pre c, l = pre ++ [Ev c (Some e)] ∧ Forall ev_ok pre
  end.

(** What a computation inside the block guarantees, when started in [w]
    with [f] open on the file [p], [old] in the file and [pending0]
    pending: the file and what is pending hold, together, what they held
    and the texts taken since. *)
Record block_post (f : file) (p : string) (w : World) (old pending0 : string)
    {A} (R : Res A) : Prop := {
  bp_argv : w_argv (world R) = w_argv w;
  bp_environ : w_environ (world R) = w_environ w;
  bp_cwd : w_cwd (world R) = w_cwd w;
  bp_dirs : w_dirs (world R) = w_dirs w;
  bp_encodes : w_encodes (world R) = w_encodes w;
  bp_flush : w_flush (world R) = w_flush w;
  bp_stdout : w_stdout (world R) = w_stdout w;
  bp_others : ∀ q, q ≠ p → w_files (world R) !! q = w_files w !! q;
  bp_state :
    ∃ content pending,
      w_open (world R) = <[f := (p, pending)]> (w_open w) ∧
      w_files (world R) !! p = Some content ∧
      content +:+ pending = old +:+ pending0 +:+ join (taken f (log R));
  bp_calls : Forall (fun e => block_call f (call_of e) = true) (log R);
  bp_disciplined : disciplined (out R) (log R)
}.

Definition block_spec (f : file) (p : string) {A} (m : M A) : Prop :=
  ∀ w old pending0,
    w_open w !! f = Some (p, pending0) → w_files w !! p = Some old →
    block_post f p w old pending0 (m w).

(** ** The shape of a run *)

(** The world right after [open] created or truncated the file and
    returned the file object [f]. *)
Definition opened (w : World) (program_name : string) (f : file) : World :=
  set_open
    (set_space
       (set_files w (<[output_file_of program_name := ""]> (w_files w)))
       ((fun n => n + String.length
                        (default "" (w_files w !! output_file_of program_name)))
          <$> w_space w))
    (<[f := (output_file_of program_name, "")]> (w_open w)).

(** The end of the script, from the result [Rb] of the [with] block:
    the file object is closed, and the message and [dispose] follow when
    neither the block nor the closing raised. *)
Definition finish (program_name : string) (f : file) (Rb : Res unit) : Res unit :=
  let Rc := close f (world Rb) in
  match out Rc, out Rb with
  | Ok _, Ok _ =>
      mkRes (Ok tt)
            (set_stdout (world Rc)
               (w_stdout (world Rc) +:+ message program_name +:+ nl))
            (setup program_name ++ log Rb ++
             [Ev (CClose f) None; Ev (CPrint (message program_name)) None;
              Ev CDispose None])
  | Ok _, Raise e =>
      mkRes (Raise e) (world Rc)
            (setup program_name ++ log Rb ++ [Ev (CClose f) None])
  | Raise e, _ =>
      mkRes (Raise e) (world Rc)
            (setup program_name ++ log Rb ++ [Ev (CClose f) (Some e)])
  end.

(** The calls made before the [with] block is entered. *)
Definition is_setup (c : call) : bool :=
  match c with
  | CGetName | CDecompInterface | COpenProgram | CConsoleTaskMonitor
  | COpen _ ModeW => true
  | _ => false
  end.

(** A run that stops before the block is entered. *)
Definition early (e : exn) (l : list event) : Prop :=
  ∃ pre c, l = pre ++ [Ev c (Some e)] ∧ Forall ev_ok pre ∧
           Forall (fun ev => is_setup (call_of ev) = true) l ∧
           Forall (fun ev => is_file_event ev = false) pre.

(** A run that entered the block with the file object [f]; [lb] is the
    log of the block and [rc] what the closing raised. *)
Record entered (w : World) (program_name : string) (f : file)
    (lb : list event) (rc : option exn) (R : Res unit) : Prop := {
  en_closed_before : w_open w !! f = None;
  en_log :
    log R = setup program_name ++ lb ++
            Ev (CClose f) rc ::
            match out R with
            | Ok _ => [Ev (CPrint (message program_name)) None; Ev CDispose None]
            | Raise _ => []
            end;
  en_calls : Forall (fun ev => block_call f (call_of ev) = true) lb;
  en_out :
    ∃ ob : result unit,
      disciplined ob lb ∧
      out R = match rc with Some e => Raise e | None => ob end;
  en_argv : w_argv (world R) = w_argv w;
  en_environ : w_environ (world R) = w_environ w;
  en_cwd : w_cwd (world R) = w_cwd w;
  en_dirs : w_dirs (world R) = w_dirs w;
  en_open : w_open (world R) = w_open w;
  en_others : ∀ q, q ≠ output_file_of program_name →
                   w_files (world R) !! q = w_files w !! q;
  en_content :
    ∃ content rest,
      w_files (world R) !! output_file_of program_name = Some content ∧
      join (taken f lb) = content +:+ rest ∧
      (rc = None → rest = "");
  en_stdout :
    w_stdout (world R) =
      match out R with
      | Ok _ => w_stdout w +:+ message program_name +:+ nl
      | Raise _ => w_stdout w
      end
}.

End Script.

Arguments mkRes {Function A} out world log.
Arguments out {Function A} r.
Arguments world {Function A} r.
Arguments log {Function A} r.

(** ** Names, lines and well-behaved hosts *)

(** ["/" in s] and ["\n" in s]. *)
Fixpoint has_sep (s : string) : bool :=
  match s with
  | EmptyString => false
  | String c r => bool_decide (c = "/"%char) || has_sep r
  end.

Fixpoint has_nl (s : string) : bool :=
  match s with
  | EmptyString => false
  | String c r => bool_decide (c = "010"%char) || has_nl r
  end.

(** [s.split("\n")]: the lines of a text; a final newline gives a last
    empty line. *)
Fixpoint split_nl (s : string) : list string :=
  match s with
  | EmptyString => [""]
  | String c r =>
      if bool_decide (c = "010"%char) then "" :: split_nl r
      else match split_nl r with
           | [] => [String c ""]
           | l :: ls => String c l :: ls
           end
  end.

(** The host answers the decompilation of [func], and with a decompiled
    function when it reports completion. *)
Definition answered {Function : Type} (h : @Host Function) (func : Function) : Prop :=
  ∃ r, decompileFunction h func 0 = Ok r ∧
       (decompileCompleted r = true → is_Some (getDecompiledFunction r)).

(** The machine can take the texts [ss]: its encoding encodes each of
    them and its device has room for all of them. *)
Definition accepts (w : World) (ss : list string) : Prop :=
  Forall (fun s => encodes w s = true) ss ∧
  has_space w (String.length (join ss)).

(** The file object [f] is open on [p] and the device has room for what
    it holds pending and for [n] more characters. *)
Definition room (w : World) (f : file) (p : string) (n : nat) : Prop :=
  ∃ pending, w_open w !! f = Some (p, pending) ∧
             has_space w (String.length pending + n).

Definition is_print {Function : Type} (e : @event Function) : bool :=
  match call_of e with
  | CPrint _ => true
  | _ => false
  end.

(** ** Sample hosts and worlds *)

Module Sample.

(** The locale of a process: [LC_ALL], else [LC_CTYPE], else [LANG],
    else ["C"]. *)
Definition locale (env : gmap string string) : string :=
  default (default (default "C" (env !! "LANG")) (env !! "LC_CTYPE"))
          (env !! "LC_ALL").

Fixpoint is_ascii (s : string) : bool :=
  match s with
  | EmptyString => true
  | String c r => (Ascii.nat_of_ascii c <? 128)%nat && is_ascii r
  end.

(** A platform on which a locale in UTF-8 encodes every text and any other
    locale the ASCII texts only. *)
Definition posix_encodes (env : gmap string string) (s : string) : bool :=
  String.prefix (String.rev ".UTF-8") (String.rev (locale env)) || is_ascii s.

(** File objects that keep everything pending until they are closed, as
    for texts shorter than their buffer. *)
Definition buffered (pending s : string) : nat := 0.

(** File objects that hand every text to the device at once, as for
    texts longer than their buffer. *)
Definition unbuffered (pending s : string) : nat :=
  String.length (pending +:+ s).

Definition completed (c : string) : DecompileResults :=
  {| decompileCompleted := true; getDecompiledFunction := Some {| getC := c |} |}.

Definition failed : DecompileResults :=
  {| decompileCompleted := false; getDecompiledFunction := None |}.

(** A program with three functions; the second one does not decompile. *)
Definition program : @Host nat := {|
  getName := Ok "libfoo.so";
  openProgram := Ok true;
  getLanguageID := Ok "AARCH64:LE:64:v8A";
  getFunctions := fun _ => Ok [1; 2; 3];
  decompileFunction := fun func _ =>
    match func with
    | 1 => Ok (completed "int f(void) { return 0; }")
    | 2 => Ok failed
    | _ => Ok (completed "void g(void) { }")
    end
|}.


(** The same program with no function at all. *)
Definition empty_program : @Host nat := {|
  getName := Ok "libfoo.so";
  openProgram := Ok true;
  getLanguageID := Ok "AARCH64:LE:64:v8A";
  getFunctions := fun _ => Ok [];
  decompileFunction := fun _ _ => Ok failed
|}.

(** A program the decompiler cannot open. *)
Definition unopenable : @Host nat := {|
  getName := Ok "libfoo.so";
  openProgram := Raise (HostException "DecompileException");
  getLanguageID := Ok "AARCH64:LE:64:v8A";
  getFunctions := fun _ => Ok [1];
  decompileFunction := fun _ _ => Ok failed
|}.

(** A machine on which the output directory exists. *)
Definition machine : World := {|
  w_argv := []; w_environ := ∅; w_cwd := "/";
  w_dirs := {[ "/"; "/Users/inoki/Builds/srcs/Rosetta2" ]};
  w_files := ∅; w_space := None;
  w_encodes := posix_encodes; w_flush := buffered;
  w_open := ∅; w_stdout := ""
|}.



(** The same machine started from elsewhere, with arguments, an
    environment and an older output file. *)
Definition other_machine : World := {|
  w_argv := ["-o"; "/tmp/out.c"]; w_environ := {[ "OUTPUT_DIR" := "/tmp" ]};
  w_cwd := "/tmp";
  w_dirs := {[ "/"; "/tmp"; "/Users/inoki/Builds/srcs/Rosetta2" ]};
  w_files := {[ "/Users/inoki/Builds/srcs/Rosetta2/libfoo.so_decomp.c" := "stale" ]};
  w_space := Some 1000;
  w_encodes := posix_encodes; w_flush := unbuffered;
  w_open := {[ 0 := ("/tmp/log", "") ]}; w_stdout := "hello"
|}.

(** A machine whose device accepts forty more characters. *)
Definition full_machine : World := {|
  w_argv := []; w_environ := ∅; w_cwd := "/";
  w_dirs := {[ "/"; "/Users/inoki/Builds/srcs/Rosetta2" ]};
  w_files := ∅; w_space := Some 40;
  w_encodes := posix_encodes; w_flush := buffered;
  w_open := ∅; w_stdout := ""
|}.



(** The program in a session whose [openProgram] returns false. *)
Definition program_unopened : @Host nat := {|
  getName := getName program;
  openProgram := Ok false;
  getLanguageID := getLanguageID program;
  getFunctions := getFunctions program;
  decompileFunction := decompileFunction program
|}.

(** A program whose language identifier cannot be read. *)
Definition no_language : @Host nat := {|
  getName := Ok "libfoo.so";
  openProgram := Ok true;
  getLanguageID := Raise (HostException "no language");
  getFunctions := fun _ => Ok [1; 2; 3];
  decompileFunction := decompileFunction program
|}.

(** A program on whose second function the decompiler raises. *)
Definition breaking : @Host nat := {|
  getName := Ok "libfoo.so";
  openProgram := Ok true;
  getLanguageID := Ok "AARCH64:LE:64:v8A";
  getFunctions := fun _ => Ok [1; 2; 3];
  decompileFunction := fun func _ =>
    match func with
    | 2 => Raise (HostException "decompiler crashed")
    | _ => Ok (completed "int f(void) { return 0; }")
    end
|}.

(** A result that reports completion but holds no decompiled function. *)
Definition hollow : DecompileResults :=
  {| decompileCompleted := true; getDecompiledFunction := None |}.

Definition hollow_program : @Host nat := {|
  getName := Ok "libfoo.so";
  openProgram := Ok true;
  getLanguageID := Ok "AARCH64:LE:64:v8A";
  getFunctions := fun _ => Ok [1];
  decompileFunction := fun _ _ => Ok hollow
|}.



(** A machine on which a directory has the name of the output file. *)
Definition dir_machine : World := {|
  w_argv := []; w_environ := ∅; w_cwd := "/";
  w_dirs := {[ "/"; "/Users/inoki/Builds/srcs/Rosetta2";
               "/Users/inoki/Builds/srcs/Rosetta2/libfoo.so_decomp.c" ]};
  w_files := ∅; w_space := None;
  w_encodes := posix_encodes; w_flush := buffered;
  w_open := ∅; w_stdout := ""
|}.

End Sample.

(** * Properties *)

Section Properties.

Context {Function : Type}.

Local Abbreviation M := (@M Function).
Local Abbreviation Host := (@Host Function).
Local Abbreviation event := (@event Function).
Local Abbreviation call := (@call Function).
Local Abbreviation ret := (@ret Function).
Local Abbreviation write := (@write Function).
Local Abbreviation close := (@close Function).
Local Abbreviation open_ := (@open_ Function).
Local Abbreviation print := (@print Function).
Local Abbreviation setup := (@setup Function).
Local Abbreviation preamble := (@preamble Function).

Implicit Types (h : Host) (w : World) (f : file).
Implicit Types (l : list event) (func : Function) (c : call).
Implicit Types (funcs : list Function) (name lang : string).

(** ** Strings and logs *)

Lemma append_cons a (s t : string) : String a s +:+ t = String a (s +:+ t).
Proof. reflexivity. Qed.

Lemma append_nil_r (s : string) : s +:+ "" = s.
Proof. induction s as [|a s IH]; [done|]. by rewrite append_cons, IH. Qed.

Lemma append_assoc (a b c : string) : (a +:+ b) +:+ c = a +:+ b +:+ c.
Proof. induction a as [|x a IH]; [done|]. by rewrite !append_cons, IH. Qed.

Lemma length_append (a b : string) :
  String.length (a +:+ b) = String.length a + String.length b.
Proof.
  induction a as [|x a IH]; [done|].
  rewrite append_cons. cbn [String.length]. by rewrite IH.
Qed.

Lemma take_drop_str n (s : string) : take_str n s +:+ drop_str n s = s.
Proof.
  revert s. induction n as [|n IH]; intros [|x s]; try done.
  cbn [take_str drop_str]. by rewrite append_cons, IH.
Qed.

Lemma length_take_str n (s : string) :
  n ≤ String.length s → String.length (take_str n s) = n.
Proof.
  revert s. induction n as [|n IH]; intros [|x s]; cbn; try done; try lia.
  intros H. rewrite IH; lia.
Qed.

Lemma length_drop_str n (s : string) :
  String.length (drop_str n s) = String.length s - n.
Proof. revert s. induction n as [|n IH]; intros [|x s]; cbn; try done. Qed.

Lemma take_str_all n (s : string) : String.length s ≤ n → take_str n s = s.
Proof.
  revert s. induction n as [|n IH]; intros [|x s]; cbn; try done; try lia.
  intros H. rewrite IH; [done|lia].
Qed.

Lemma drop_str_all n (s : string) : String.length s ≤ n → drop_str n s = "".
Proof.
  revert s. induction n as [|n IH]; intros [|x s]; cbn; try done; try lia.
  intros H. apply IH. lia.
Qed.

Lemma join_app (l1 l2 : list string) : join (l1 ++ l2) = join l1 +:+ join l2.
Proof.
  induction l1 as [|s l1 IH]; [done|].
  cbn [join app]. by rewrite IH, append_assoc.
Qed.

Lemma writes_app f l1 l2 : writes f (l1 ++ l2) = writes f l1 ++ writes f l2.
Proof.
  induction l1 as [|[c r] l1 IH]; [done|].
  cbn [app writes]. destruct c, r; try done.
  case_bool_decide; [|done]. by rewrite IH.
Qed.

Lemma written_app f l1 l2 :
  written f (l1 ++ l2) = written f l1 +:+ written f l2.
Proof. unfold written. by rewrite writes_app, join_app. Qed.

Lemma taken_app f l1 l2 : taken f (l1 ++ l2) = taken f l1 ++ taken f l2.
Proof.
  induction l1 as [|[c r] l1 IH]; [done|].
  cbn [app taken]. destruct c; try done.
  destruct (bool_decide (f0 = f) && takes r); [|done]. by rewrite IH.
Qed.

(** When every call returned, the texts taken are those of the writes. *)
Lemma taken_ok f l : Forall ev_ok l → taken f l = writes f l.
Proof.
  induction 1 as [|[c r] l Hr _ IH]; [done|].
  cbn in Hr. subst r. cbn [taken writes takes]. rewrite IH.
  destruct c; try done. by rewrite andb_true_r.
Qed.

Lemma requests_app l1 l2 : requests (l1 ++ l2) = requests l1 ++ requests l2.
Proof.
  induction l1 as [|[c r] l1 IH]; [done|].
  cbn [app requests]. destruct c; try done. by rewrite IH.
Qed.

(** ** The monad *)

Lemma bind_cases {A B} (m : M A) (k : A → M B) w :
  (∃ e, out (m w) = Raise e ∧
        bind m k w = mkRes (Raise e) (world (m w)) (log (m w))) ∨
  (∃ a, out (m w) = Ok a ∧
        bind m k w = mkRes (out (k a (world (m w))))
                           (world (k a (world (m w))))
                           (log (m w) ++ log (k a (world (m w))))).
Proof. unfold bind. destruct (out (m w)); eauto. Qed.

Lemma disciplined_app {A B} (a : A) (o : result B) l1 l2 :
  disciplined (Ok a) l1 → disciplined o l2 → disciplined o (l1 ++ l2).
Proof.
  intros H1 H2. destruct o as [b|e]; cbn in *.
  - by apply Forall_app.
  - destruct H2 as (pre & c & -> & Hpre).
    exists (l1 ++ pre), c. split; [by rewrite app_assoc|].
    by apply Forall_app.
Qed.

(** ** The device and the file objects *)

Lemma accepted_le w k : accepted w k ≤ k.
Proof. unfold accepted. destruct (w_space w); lia. Qed.

Lemma accepted_all w k n : has_space w (k + n) → accepted w k = k.
Proof. unfold accepted, has_space. destruct (w_space w); lia. Qed.

(** The outcome and the log of a write. *)
Lemma write_log f s w :
  log (write f s w) = [Ev (CWrite f s) (raised (out (write f s w)))].
Proof.
  unfold write. destruct (w_open w !! f) as [[p pending]|]; [|done].
  destruct (encodes w s); [|done]. by case_bool_decide.
Qed.

Lemma write_ok_inv f s w :
  out (write f s w) = Ok tt → log (write f s w) = [Ev (CWrite f s) None].
Proof. intros H. by rewrite write_log, H. Qed.

Lemma close_log f w :
  log (close f w) = [Ev (CClose f) (raised (out (close f w)))].
Proof.
  unfold close. destruct (w_open w !! f) as [[p pending]|]; [|done].
  by case_bool_decide.
Qed.

(** ** Computations inside the block *)

Section Block.

Variables (f : file) (p : string).

Lemma block_still w old pending0 {A} (o : result A) l :
  w_open w !! f = Some (p, pending0) → w_files w !! p = Some old →
  taken f l = [] →
  Forall (fun e : event => block_call f (call_of e) = true) l →
  disciplined o l →
  block_post f p w old pending0 (mkRes o w l).
Proof.
  intros Hf Hp Ht Hcalls Hd. split; cbn [world out log]; try done.
  exists old, pending0. rewrite Ht. cbn [join].
  by rewrite append_nil_r, insert_id.
Qed.

Lemma block_ret {A} (a : A) : block_spec f p (ret a).
Proof.
  intros w old pending0 Hf Hp. apply block_still; try done. constructor.
Qed.

Lemma block_host {A} c (r : result A) :
  query c = true → block_spec f p (host c r).
Proof.
  intros Hc w old pending0 Hf Hp. apply block_still; try done.
  - by destruct c.
  - repeat constructor. by destruct c.
  - destruct r as [a|e]; cbn.
    + by repeat constructor.
    + by exists [], c.
Qed.

Lemma block_write s : block_spec f p (write f s).
Proof.
  intros w old pending0 Hf Hp.
  assert (block_call f (CWrite f s : call) = true) as Hb
    by (cbn; by rewrite bool_decide_eq_true_2).
  unfold write. rewrite Hf.
  destruct (encodes w s).
  2: { apply block_still; try done.
       - cbn. by rewrite andb_false_r.
       - by repeat constructor.
       - by exists [], (CWrite f s : call). }
  set (buf := pending0 +:+ s).
  set (k := Nat.min (w_flush w pending0 s) (String.length buf)).
  set (a := accepted w k).
  assert (disciplined (if bool_decide (a < k) then Raise OSError else Ok tt : result unit)
            [Ev (CWrite f s : call) (if bool_decide (a < k) then Some OSError else None)])
    as Hd.
  { case_bool_decide; cbn; [by exists [], (CWrite f s : call)|by repeat constructor]. }
  assert (taken f [Ev (CWrite f s : call) (if bool_decide (a < k) then Some OSError else None)]
          = [s]) as Ht.
  { cbn. rewrite bool_decide_eq_true_2 by done. by case_bool_decide. }
  case_bool_decide; split; cbn [world out log]; try done.
  all: try (by repeat constructor).
  all: try (intros q Hq; cbn; by rewrite lookup_insert_ne).
  all: exists (old +:+ take_str a buf), (drop_str a buf); rewrite Ht;
       (split; [done|]); cbn [join];
       (split; [cbn; by rewrite lookup_insert_eq, Hp|]);
       by rewrite append_assoc, take_drop_str, append_nil_r.
Qed.

Lemma block_bind {A B} (m : M A) (k : A → M B) :
  block_spec f p m → (∀ a, block_spec f p (k a)) → block_spec f p (bind m k).
Proof.
  intros Hm Hk w old pending0 Hf Hp.
  destruct (Hm w old pending0 Hf Hp)
    as [? ? ? ? ? ? ? Hq (c1 & p1 & Ho & Hc & He) Hcalls Hd].
  destruct (bind_cases m k w) as [(e & Hout & ->)|(a & Hout & ->)].
  - rewrite Hout in Hd. split; try done. by exists c1, p1.
  - rewrite Hout in Hd.
    assert (w_open (world (m w)) !! f = Some (p, p1)) as Hf1
      by (rewrite Ho; apply lookup_insert_eq).
    destruct (Hk a _ _ _ Hf1 Hc)
      as [? ? ? ? ? ? ? Hq' (c2 & p2 & Ho' & Hc' & He') Hcalls' Hd'].
    split; cbn [world out log]; try congruence.
    + intros q Hne. by rewrite Hq', Hq.
    + exists c2, p2. split; [by rewrite Ho', Ho, insert_insert_eq|].
      split; [done|].
      rewrite He', taken_app, join_app, <- !append_assoc, He.
      by rewrite !append_assoc.
    + by apply Forall_app.
    + by eapply disciplined_app.
Qed.

Lemma block_for_each {A} (xs : list A) (body : A → M unit) :
  (∀ x, block_spec f p (body x)) → block_spec f p (for_each xs body).
Proof.
  intros Hbody. induction xs as [|x xs IH]; cbn [for_each].
  - apply block_ret.
  - apply block_bind; [apply Hbody|]. intros _. apply IH.
Qed.

Lemma block_loop_body h func : block_spec f p (loop_body h f func).
Proof.
  unfold loop_body.
  apply block_bind; [by apply block_host|]. intros r.
  apply block_bind; [by apply block_host|]. intros [|]; [|apply block_ret].
  apply block_bind; [by apply block_host|]. intros d.
  apply block_bind; [by apply block_host|]. intros c.
  apply block_bind; [apply block_write|]. intros _. apply block_write.
Qed.

Lemma block_with_block h name : block_spec f p (with_block h name f).
Proof.
  unfold with_block.
  apply block_bind; [apply block_write|]. intros _.
  apply block_bind; [by apply block_host|]. intros lang.
  apply block_bind; [apply block_write|]. intros _.
  apply block_bind; [by apply block_host|]. intros _.
  apply block_bind; [by apply block_host|]. intros funcs.
  apply block_for_each. intros func. apply block_loop_body.
Qed.

End Block.

(** ** Runs of the block that do not raise *)

Lemma bind_ok_inv {A B} (m : M A) (k : A → M B) w b :
  out (bind m k w) = Ok b →
  ∃ a, out (m w) = Ok a ∧ out (k a (world (m w))) = Ok b ∧
       log (bind m k w) = log (m w) ++ log (k a (world (m w))) ∧
       world (bind m k w) = world (k a (world (m w))).
Proof.
  destruct (bind_cases m k w) as [(e & Hout & ->)|(a & Hout & ->)]; [done|].
  cbn. eauto.
Qed.

Lemma host_ok_inv {A} c (r : result A) w a :
  out (host c r w) = Ok a → r = Ok a ∧ log (host c r w) = [Ev c None].
Proof. cbn. by intros ->. Qed.

Lemma loop_body_ok h f func w :
  out (loop_body h f func w) = Ok tt →
  log (loop_body h f func w) = iteration h f func ∧
  ∃ r, decompileFunction h func 0 = Ok r ∧
       (decompileCompleted r = true → is_Some (getDecompiledFunction r)).
Proof.
  unfold loop_body, iteration, completed_code, mbind, M_bind. intros H.
  apply bind_ok_inv in H as (r & (Hr & Hl1)%host_ok_inv & H & -> & _).
  rewrite Hl1, Hr. cbn [world host] in *.
  apply bind_ok_inv in H as (b & ([= <-] & Hl2)%host_ok_inv & H & -> & _).
  rewrite Hl2. cbn [world host] in *.
  destruct (decompileCompleted r) eqn:Hcomp.
  - apply bind_ok_inv in H as (d & ([= <-] & Hl3)%host_ok_inv & H & -> & _).
    rewrite Hl3. cbn [world host] in *.
    apply bind_ok_inv in H as (c & (Hc & Hl4)%host_ok_inv & H & -> & _).
    rewrite Hl4. cbn [world host] in *.
    destruct (getDecompiledFunction r) as [d|] eqn:Hd; [|done].
    injection Hc as <-.
    apply bind_ok_inv in H as ([] & Hw1 & Hw2 & -> & _).
    rewrite (write_ok_inv _ _ _ Hw1), (write_ok_inv _ _ _ Hw2).
    split; [done|]. exists r. rewrite Hd. eauto.
  - cbn. split; [done|]. exists r. by rewrite Hcomp.
Qed.

Lemma for_each_ok {A} (xs : list A) (body : A → M unit)
    (ev : A → list event) (P : A → Prop) w :
  (∀ x w', out (body x w') = Ok tt → log (body x w') = ev x ∧ P x) →
  out (for_each xs body w) = Ok tt →
  log (for_each xs body w) = flat_map ev xs ∧ Forall P xs.
Proof.
  intros Hbody. revert w. induction xs as [|x xs IH]; intros w H.
  - by split.
  - cbn [for_each] in *. unfold mbind, M_bind in *.
    apply bind_ok_inv in H as ([] & Hx & Hxs & -> & _).
    destruct (Hbody _ _ Hx) as [-> HP], (IH _ Hxs) as [-> HPs].
    split; [done|]. by constructor.
Qed.

Lemma with_block_ok h name f w :
  out (with_block h name f w) = Ok tt →
  ∃ lang funcs,
    getLanguageID h = Ok lang ∧ getFunctions h true = Ok funcs ∧
    log (with_block h name f w) =
      preamble f name lang ++ flat_map (iteration h f) funcs ∧
    Forall (fun func => ∃ r, decompileFunction h func 0 = Ok r ∧
       (decompileCompleted r = true → is_Some (getDecompiledFunction r)))
      funcs.
Proof.
  unfold with_block, mbind, M_bind. intros H.
  apply bind_ok_inv in H as ([] & Hw1 & H & -> & _).
  apply bind_ok_inv in H as (lang & (Hlang & Hl)%host_ok_inv & H & -> & _).
  apply bind_ok_inv in H as ([] & Hw2 & H & -> & _).
  apply bind_ok_inv in H as ([] & (_ & Hfm)%host_ok_inv & H & -> & _).
  apply bind_ok_inv in H as (funcs & (Hfuncs & Hgf)%host_ok_inv & H & -> & _).
  eapply for_each_ok in H as [-> Hall]; [|intros x w'; apply loop_body_ok].
  exists lang, funcs.
  rewrite (write_ok_inv _ _ _ Hw1), (write_ok_inv _ _ _ Hw2), Hl, Hfm, Hgf.
  by repeat split.
Qed.

(** ** The run as a whole *)

Lemma output_file_absolute name : startswith_sep (output_file_of name) = true.
Proof.
  unfold output_file_of, os_path_join.
  by destruct (startswith_sep (name +:+ "_decomp.c")) eqn:E.
Qed.

Lemma abspath_output_file w name :
  abspath w (output_file_of name) = output_file_of name.
Proof. unfold abspath. by rewrite output_file_absolute. Qed.

Lemma open_output_file w name (p := output_file_of name)
    (f := fresh (dom (w_open w))) :
  ((p ∈ w_dirs w) ∧
   open_ p ModeW w = mkRes (Raise IsADirectoryError) w
                           [Ev (COpen p ModeW) (Some IsADirectoryError)]) ∨
  ((p ∉ w_dirs w) ∧ (os_path_dirname p ∉ w_dirs w) ∧
   open_ p ModeW w = mkRes (Raise FileNotFoundError) w
                           [Ev (COpen p ModeW) (Some FileNotFoundError)]) ∨
  ((p ∉ w_dirs w) ∧ (os_path_dirname p ∈ w_dirs w) ∧
   open_ p ModeW w = mkRes (Ok f) (opened w name f) [Ev (COpen p ModeW) None]).
Proof.
  subst p f. unfold open_. rewrite abspath_output_file.
  repeat case_bool_decide; auto.
Qed.

Lemma fresh_file_closed w : w_open w !! fresh (dom (w_open w)) = None.
Proof. apply not_elem_of_dom, is_fresh. Qed.

Lemma script_run h w :
  (∃ e l, script h w = mkRes (Raise e) w l ∧ early e l ∧
     (getName h = Raise e ∨
      (∃ name, getName h = Ok name ∧
         (openProgram h = Raise e ∨
          (output_file_of name ∈ w_dirs w) ∨
          (os_path_dirname (output_file_of name) ∉ w_dirs w))))) ∨
  (∃ name f,
     getName h = Ok name ∧ f = fresh (dom (w_open w)) ∧
     (output_file_of name ∉ w_dirs w) ∧
     (os_path_dirname (output_file_of name) ∈ w_dirs w) ∧
     script h w = finish name f (with_block h name f (opened w name f))).
Proof.
  unfold script, with_open, mbind, M_bind.
  destruct (getName h) as [name|e] eqn:Hname.
  2: { left. exists e, [Ev CGetName (Some e)]. split; [done|]. split; [|by left].
       exists [], CGetName. by repeat constructor. }
  destruct (openProgram h) as [b|e] eqn:Hopen.
  2: { left. exists e. eexists. split; [reflexivity|]. split; [|right; eauto].
       exists [Ev CGetName None; Ev CDecompInterface None], COpenProgram.
       by repeat constructor. }
  destruct (open_output_file w name) as [(Hd & Ho)|[(Hd & Hp & Ho)|(Hd & Hp & Ho)]].
  - left. exists IsADirectoryError. eexists. split; [|split; [|right; eauto]].
    + unfold bind, host. cbn [out world log]. by rewrite Ho.
    + exists [Ev CGetName None; Ev CDecompInterface None; Ev COpenProgram None;
              Ev CConsoleTaskMonitor None], (COpen (output_file_of name) ModeW).
      by repeat constructor.
  - left. exists FileNotFoundError. eexists. split; [|split; [|right; eauto]].
    + unfold bind, host. cbn [out world log]. by rewrite Ho.
    + exists [Ev CGetName None; Ev CDecompInterface None; Ev COpenProgram None;
              Ev CConsoleTaskMonitor None], (COpen (output_file_of name) ModeW).
      by repeat constructor.
  - right. exists name, (fresh (dom (w_open w))). repeat split; try done.
    unfold bind, finally, finish, host, print.
    cbn [out world log]. rewrite Ho. cbn [out world log].
    rewrite close_log.
    repeat match goal with
           | |- context [match out ?R with _ => _ end] =>
               destruct (out R) as [[]|?]; cbn [out world log raised]
           end;
      unfold setup, message; f_equal; cbn [app];
      by rewrite <- ?app_assoc.
Qed.

Lemma opened_block h w name f :
  block_post f (output_file_of name) (opened w name f) "" ""
             (with_block h name f (opened w name f)).
Proof.
  apply block_with_block; cbn; apply lookup_insert_eq.
Qed.

(** What closing does to a file object opened on [p]. *)
Lemma close_spec f p pending content w :
  w_open w !! f = Some (p, pending) → w_files w !! p = Some content →
  w_argv (world (close f w)) = w_argv w ∧
  w_environ (world (close f w)) = w_environ w ∧
  w_cwd (world (close f w)) = w_cwd w ∧
  w_dirs (world (close f w)) = w_dirs w ∧
  w_stdout (world (close f w)) = w_stdout w ∧
  w_open (world (close f w)) = delete f (w_open w) ∧
  (∀ q, q ≠ p → w_files (world (close f w)) !! q = w_files w !! q) ∧
  ∃ t rest,
    pending = t +:+ rest ∧
    w_files (world (close f w)) !! p = Some (content +:+ t) ∧
    (out (close f w) = Ok tt → rest = "").
Proof.
  intros Hf Hp. unfold close. rewrite Hf.
  set (a := accepted w (String.length pending)).
  assert (∀ q, q ≠ p →
    <[p := default "" (w_files w !! p) +:+ take_str a pending]> (w_files w) !! q
    = w_files w !! q) as Hq by (intros q Hne; by rewrite lookup_insert_ne).
  case_bool_decide; cbn [world out]; repeat split; try done.
  all: exists (take_str a pending), (drop_str a pending).
  all: split; [by rewrite take_drop_str|].
  all: split; [cbn; by rewrite lookup_insert_eq, Hp|].
  - done.
  - intros _. apply drop_str_all. lia.
Qed.

Lemma writes_iteration h f func :
  writes f (iteration h f func) = contribution h func.
Proof.
  unfold iteration, contribution.
  destruct (completed_code h func); cbn; [|done].
  by rewrite !bool_decide_eq_true_2.
Qed.

Lemma writes_loop h f funcs :
  writes f (flat_map (iteration h f) funcs) = flat_map (contribution h) funcs.
Proof.
  induction funcs as [|func funcs IH]; [done|].
  cbn [flat_map]. by rewrite writes_app, writes_iteration, IH.
Qed.

Lemma join_contributions h funcs :
  join (flat_map (contribution h) funcs) = blocks h funcs.
Proof.
  unfold blocks. induction funcs as [|func funcs IH]; [done|].
  cbn [flat_map omap list_omap]. unfold contribution at 1.
  destruct (completed_code h func) as [c|]; [|done].
  cbn [app join fmap list_fmap]. by rewrite IH, !append_assoc.
Qed.

Lemma requests_iteration h f func :
  requests (iteration h f func) = [(func, 0%Z)].
Proof. unfold iteration. by destruct (completed_code h func). Qed.

Lemma requests_loop h f funcs :
  requests (flat_map (iteration h f) funcs) = (fun func => (func, 0%Z)) <$> funcs.
Proof.
  induction funcs as [|func funcs IH]; [done|].
  cbn [flat_map]. by rewrite requests_app, requests_iteration, IH.
Qed.

(** ** Runs of the block, whatever their outcome *)

Lemma taken_write_prefix f s r (rest : list string) :
  taken f [Ev (CWrite f s : call) r] `prefix_of` s :: rest.
Proof.
  cbn. rewrite bool_decide_eq_true_2 by done.
  destruct (takes r); [apply prefix_cons|]; apply prefix_nil.
Qed.

Lemma loop_body_so_far h f func w :
  requests (log (loop_body h f func w)) = [(func, 0%Z)] ∧
  taken f (log (loop_body h f func w)) `prefix_of` contribution h func.
Proof.
  unfold loop_body, contribution, completed_code, mbind, M_bind, bind, host.
  cbn [out world log].
  destruct (decompileFunction h func 0) as [r|e]; cbn [out world log raised];
    [|split; [done|apply prefix_nil]].
  destruct (decompileCompleted r); cbn [out world log raised];
    [|split; [done|apply prefix_nil]].
  destruct (getDecompiledFunction r) as [d|]; cbn [out world log raised fmap option_fmap option_map];
    [|split; [done|apply prefix_nil]].
  pose proof (write_log f (getC d) w) as L1.
  destruct (write f (getC d) w) as [[[]|e] w1 l1]; cbn [out world log raised] in *;
    subst l1.
  2: { split; [done|]. apply (taken_write_prefix f (getC d) (Some e)). }
  pose proof (write_log f (nl +:+ nl) w1) as L2.
  destruct (write f (nl +:+ nl) w1) as [[[]|e] w2 l2]; cbn [out world log raised] in *;
    subst l2; (split; [done|]); cbn [app taken];
    rewrite !bool_decide_eq_true_2 by done; cbn [andb].
  - done.
  - apply prefix_cons. destruct (takes (Some e)); [apply prefix_cons|]; apply prefix_nil.
Qed.

Lemma loop_so_far h f funcs w :
  requests (log (for_each funcs (loop_body h f) w))
    `prefix_of` ((fun func => (func, 0%Z)) <$> funcs) ∧
  taken f (log (for_each funcs (loop_body h f) w))
    `prefix_of` flat_map (contribution h) funcs.
Proof.
  revert w. induction funcs as [|func funcs IH]; intros w; cbn [for_each].
  { split; apply prefix_nil. }
  unfold mbind, M_bind.
  destruct (loop_body_so_far h f func w) as [Hr Hw].
  destruct (bind_cases (loop_body h f func) (fun _ => for_each funcs (loop_body h f)) w)
    as [(e & Hout & ->)|([] & Hout & ->)]; cbn [log].
  - rewrite Hr. split; [apply prefix_cons, prefix_nil|].
    cbn [flat_map]. by apply prefix_app_r.
  - destruct (loop_body_ok _ _ _ _ Hout) as [Hl _].
    destruct (IH (world (loop_body h f func w))) as [IHr IHw].
    rewrite requests_app, taken_app, Hl, requests_iteration.
    rewrite taken_ok, writes_iteration.
    2: { unfold iteration. destruct (completed_code h func); by repeat constructor. }
    split; [by apply prefix_cons|]. cbn [flat_map]. by apply prefix_app.
Qed.

Lemma with_block_so_far h name f w :
  taken f (log (with_block h name f w)) `prefix_of` expected_writes h name ∧
  ∀ funcs, getFunctions h true = Ok funcs →
    requests (log (with_block h name f w))
      `prefix_of` ((fun func => (func, 0%Z)) <$> funcs).
Proof.
  unfold with_block, expected_writes, mbind, M_bind.
  match goal with |- context [bind ?m ?k w] =>
    destruct (bind_cases m k w) as [(e & Hout & ->)|([] & Hout & ->)] end;
    cbn [log]; rewrite write_log, Hout; cbn [raised].
  { split; [apply taken_write_prefix|]. intros. apply prefix_nil. }
  set (w1 := world (write f _ w)). clearbody w1. clear Hout.
  match goal with |- context [bind ?m ?k w1] =>
    destruct (bind_cases m k w1) as [(e & Hout & ->)|(lang & Hout & ->)] end;
    cbn [log host world]; cbn in Hout; rewrite Hout; cbn [raised].
  { cbn. rewrite bool_decide_eq_true_2 by done.
    split; [apply prefix_cons, prefix_nil|]. intros. apply prefix_nil. }
  match goal with |- context [bind ?m ?k w1] =>
    destruct (bind_cases m k w1) as [(e & Hout2 & ->)|([] & Hout2 & ->)] end;
    cbn [log]; rewrite write_log, Hout2; cbn [raised].
  { split; [|intros; apply prefix_nil].
    cbn [app taken]. rewrite !bool_decide_eq_true_2 by done.
    change (takes None) with true. cbn [andb]. apply prefix_cons.
    destruct (takes (Some e)); [apply prefix_cons|]; apply prefix_nil. }
  set (w2 := world (write f _ w1)). clearbody w2. clear Hout2.
  unfold bind at 1. cbn [host out world log raised].
  destruct (getFunctions h true) as [funcs|e] eqn:Hfuncs.
  2: { unfold bind. cbn. rewrite !bool_decide_eq_true_2 by done.
       split; [do 2 apply prefix_cons; apply prefix_nil|]. by intros. }
  unfold bind at 1. cbn [host out world log raised].
  destruct (loop_so_far h f funcs w2) as [Hr Hw].
  split.
  - cbn. rewrite !bool_decide_eq_true_2 by done. by do 2 apply prefix_cons.
  - intros ? [= <-]. done.
Qed.



(** Every run either stops before the block or enters it; the outcome of
    a run that entered it is the exception of the closing, if any, and
    else the outcome of the block. *)
Lemma script_any h w :
  (∃ e, out (script h w) = Raise e ∧ world (script h w) = w ∧
        early e (log (script h w))) ∨
  (∃ name f rc,
     getName h = Ok name ∧ f = fresh (dom (w_open w)) ∧
     rc = raised (out (close f (world (with_block h name f (opened w name f))))) ∧
     entered w name f (log (with_block h name f (opened w name f))) rc
             (script h w) ∧
     out (script h w) =
       match rc with
       | Some e => Raise e
       | None => out (with_block h name f (opened w name f))
       end).
Proof.
  destruct (script_run h w) as [(e & l & Hrun & Hl & _)|(name & f & Hname & -> & _ & _ & Hrun)].
  { left. exists e. by rewrite Hrun. }
  right. set (f := fresh (dom (w_open w))) in *.
  set (p := output_file_of name) in *.
  set (Rb := with_block h name f (opened w name f)) in *.
  pose proof (opened_block h w name f)
    as [Ba Be Bc Bd _ _ Hs Hq (content & pending & Ho & Hc & He) Hcalls Hd].
  fold Rb in Ba, Be, Bc, Bd, Ho, Hc, He, Hq, Hs, Hcalls, Hd.
  assert (w_open (world Rb) !! f = Some (p, pending)) as Hf
    by (rewrite Ho; apply lookup_insert_eq).
  destruct (close_spec f p pending content (world Rb) Hf Hc)
    as (Ca & Ce & Cc & Cd & Cs & Co & Cq & t & rest & Hpend & Hfile & Hrest).
  assert (delete f (w_open (world Rb)) = w_open w) as Hdel.
  { rewrite Ho. cbn. rewrite !delete_insert_eq. apply delete_id, fresh_file_closed. }
  assert (join (taken f (log Rb)) = (content +:+ t) +:+ rest) as Hjoin.
  { change ("" +:+ "" +:+ join (taken f (log Rb)))
      with (join (taken f (log Rb))) in He.
    by rewrite <- He, Hpend, append_assoc. }
  assert (∀ q, q ≠ p → w_files (world (close f (world Rb))) !! q = w_files w !! q)
    as Hothers.
  { intros q Hne. rewrite Cq, Hq by done. cbn. by rewrite lookup_insert_ne. }
  exists name, f, (raised (out (close f (world Rb)))).
  split; [done|]. split; [done|]. split; [done|]. rewrite Hrun. unfold finish.
  destruct (out (close f (world Rb))) as [[]|ec] eqn:Hclose;
    destruct (out Rb) as [[]|eb] eqn:Hb;
    (split; [split|]); cbn [out world log raised]; try done.
  all: try apply fresh_file_closed.
  all: try (by eexists; split; [exact Hd|]).
  all: try (exists (content +:+ t), rest; repeat split; try done; by auto).
  all: cbn [set_stdout w_argv w_environ w_cwd w_dirs w_open w_stdout].
  all: try (by rewrite Co, Hdel).
  all: by rewrite ?Ca, ?Ce, ?Cc, ?Cd, ?Cs, ?Ba, ?Be, ?Bc, ?Bd, ?Hs.
Qed.

(** A run that does not raise, in full. *)
Lemma script_ok h w :
  out (script h w) = Ok tt →
  ∃ name lang funcs f,
    getName h = Ok name ∧ getLanguageID h = Ok lang ∧
    getFunctions h true = Ok funcs ∧
    w_open w !! f = None ∧
    log (script h w) =
      setup name ++ preamble f name lang ++ flat_map (iteration h f) funcs ++
      [Ev (CClose f) None; Ev (CPrint (message name)) None; Ev CDispose None] ∧
    w_files (world (script h w)) !! output_file_of name =
      Some (header name lang +:+ blocks h funcs) ∧
    w_stdout (world (script h w)) = w_stdout w +:+ message name +:+ nl ∧
    Forall (fun func => ∃ r, decompileFunction h func 0 = Ok r ∧
       (decompileCompleted r = true → is_Some (getDecompiledFunction r)))
      funcs.
Proof.
  intros Hok.
  destruct (script_any h w)
    as [(e & Hout & _)|(name & f & rc & Hname & _ & _ & Hen & Hout)].
  { congruence. }
  rewrite Hok in Hout. destruct rc as [e|]; [done|]. symmetry in Hout.
  destruct (with_block_ok _ _ _ _ Hout) as (lang & funcs & Hlang & Hfuncs & Hlog & Hall).
  destruct Hen as [Hclosed Hl _ _ _ _ _ _ _ _ (content & rest & Hfile & Hjoin & Hrest) Hs].
  rewrite Hok in Hl, Hs. rewrite (Hrest eq_refl), append_nil_r in Hjoin.
  exists name, lang, funcs, f. repeat split; try done.
  - by rewrite Hl, Hlog, <- !app_assoc.
  - rewrite Hfile, <- Hjoin, Hlog. f_equal.
    rewrite taken_ok.
    2: { apply Forall_app. split; [by repeat constructor|].
         apply Forall_flat_map, Forall_forall. intros func _. unfold iteration.
         destruct (completed_code h func); by repeat constructor. }
    rewrite writes_app, join_app, writes_loop, join_contributions.
    unfold header, preamble. cbn [writes].
    rewrite !bool_decide_eq_true_2 by done.
    cbn [join]. by rewrite append_nil_r, !append_assoc.
Qed.


Lemma requests_setup l :
  Forall (fun ev : event => is_setup (call_of ev) = true) l → requests l = [].
Proof. induction 1 as [|[c r] l Hc _ IH]; [done|]. by destruct c. Qed.

Lemma join_prefix (l1 l2 : list string) :
  l1 `prefix_of` l2 → ∃ rest, join l2 = join l1 +:+ rest.
Proof. intros [k ->]. exists (join k). apply join_app. Qed.

(** What any run has requested and written when it ends. *)
Lemma script_so_far h w name :
  getName h = Ok name →
  (∀ funcs, getFunctions h true = Ok funcs →
     requests (log (script h w)) `prefix_of` ((fun func => (func, 0%Z)) <$> funcs)) ∧
  (Ev (COpen (output_file_of name) ModeW) None ∈ log (script h w) →
   ∃ content rest,
     w_files (world (script h w)) !! output_file_of name = Some content ∧
     join (expected_writes h name) = content +:+ rest).
Proof.
  intros Hname.
  destruct (script_any h w)
    as [(e & _ & _ & (pre & c & Hl & Hpre & Hsetup & Hnf))|
        (n & f & rc & Hn & _ & _ & Hen & _)].
  - split.
    + intros funcs _. rewrite (requests_setup _ Hsetup). apply prefix_nil.
    + intros Hin. exfalso. rewrite Hl in Hin.
      apply elem_of_app in Hin as [Hin|Hin%list_elem_of_singleton]; [|done].
      rewrite Forall_forall in Hnf. by specialize (Hnf _ Hin).
  - assert (n = name) as -> by congruence.
    destruct (with_block_so_far h name f (opened w name f)) as [Hws Hreq].
    destruct Hen as [_ Hlog _ _ _ _ _ _ _ _ (content & rest & Hfile & Hjoin & _) _].
    split.
    + intros funcs Hfuncs. specialize (Hreq funcs Hfuncs).
      rewrite Hlog, !requests_app.
      destruct (out (script h w)); cbn; by rewrite app_nil_r.
    + intros _. destruct (join_prefix _ _ Hws) as [more Hmore].
      exists content, (rest +:+ more). split; [done|].
      by rewrite Hmore, Hjoin, append_assoc.
Qed.

(** ** The output file *)

(** C1: in every run that ends without an exception, the output file
    holds exactly the comment line with the program name, the comment line
    with the language identifier, an empty line, and then the text of each
    function whose decompilation completed, each followed by the
    separator.  In every run in which the file was opened, it holds an
    initial part of the text of such a run. *)
Theorem output_file_contents h w :
  (out (script h w) = Ok tt →
   ∃ name lang funcs,
     getName h = Ok name ∧ getLanguageID h = Ok lang ∧
     getFunctions h true = Ok funcs ∧
     w_files (world (script h w)) !! output_file_of name =
       Some (("// Decompiled code for " +:+ name +:+ nl) +:+
             ("// Language: " +:+ lang +:+ nl) +:+
             nl +:+
             join ((fun code => code +:+ nl +:+ nl) <$> omap (completed_code h) funcs))) ∧
  (∀ name, getName h = Ok name →
     Ev (COpen (output_file_of name) ModeW) None ∈ log (script h w) →
     ∃ content rest,
       w_files (world (script h w)) !! output_file_of name = Some content ∧
       join (expected_writes h name) = content +:+ rest).
Proof.
  split.
  - intros Hok.
    destruct (script_ok h w Hok)
      as (name & lang & funcs & f & Hname & Hlang & Hfuncs & _ & _ & Hfile & _).
    exists name, lang, funcs. repeat split; try done.
    rewrite Hfile. unfold header, blocks. by rewrite !append_assoc.
  - intros name Hname. apply script_so_far, Hname.
Qed.

(** C2: in a run that ends without an exception, the writes to the file
    after the two header writes are, function by function, the C text and
    the separator when the result reports completion and nothing
    otherwise, and the output file holds the texts of these writes one
    after the other; the standard output receives the final message and
    nothing else.  An iteration whose result does not report completion
    makes its two calls to the host and leaves the world as it was. *)
Theorem written_iff_completed h w :
  (∀ funcs,
     getFunctions h true = Ok funcs →
     out (script h w) = Ok tt →
     ∃ name lang f,
       getName h = Ok name ∧ getLanguageID h = Ok lang ∧
       writes f (log (script h w)) =
         ["// Decompiled code for " +:+ name +:+ nl;
          "// Language: " +:+ lang +:+ nl +:+ nl] ++
         flat_map (contribution h) funcs ∧
       w_files (world (script h w)) !! output_file_of name =
         Some (join (["// Decompiled code for " +:+ name +:+ nl;
                      "// Language: " +:+ lang +:+ nl +:+ nl] ++
                     flat_map (contribution h) funcs)) ∧
       (∀ func, func ∈ funcs →
          ∃ r, decompileFunction h func 0 = Ok r ∧
            (decompileCompleted r = true →
               ∃ d, getDecompiledFunction r = Some d ∧
                    contribution h func = [getC d; nl +:+ nl]) ∧
            (decompileCompleted r = false → contribution h func = [])) ∧
       w_stdout (world (script h w)) =
         w_stdout w +:+ "Decompiled code written to " +:+ output_file_of name +:+ nl) ∧
  (∀ w' f func r,
     decompileFunction h func 0 = Ok r → decompileCompleted r = false →
     loop_body h f func w' =
       mkRes (Ok tt) w'
             [Ev (CDecompileFunction func 0) None; Ev (CDecompileCompleted func) None]).
Proof.
  split.
  - intros funcs Hfuncs Hok.
    destruct (script_ok h w Hok)
      as (name & lang & funcs' & f & Hname & Hlang & Hfuncs' & _ & Hlog & Hfile & Hout & Hall).
    assert (funcs' = funcs) as -> by congruence.
    exists name, lang, f. repeat split; try done.
    + rewrite Hlog, !writes_app, writes_loop.
      cbn [writes]; unfold setup, preamble; cbn [writes app].
      rewrite !bool_decide_eq_true_2 by done.
      cbn [app]. by rewrite app_nil_r.
    + rewrite Hfile. f_equal. rewrite join_app, join_contributions.
      unfold header. cbn [join]. by rewrite append_nil_r, !append_assoc.
    + intros func Hin.
      rewrite Forall_forall in Hall. destruct (Hall func Hin) as (r & Hr & Hsome).
      exists r. split; [done|]. unfold contribution, completed_code. rewrite Hr.
      split; intros Hc; rewrite Hc; [|done].
      destruct (Hsome Hc) as [d Hd]. exists d. by rewrite Hd.
  - intros w' f func r Hr Hc.
    unfold loop_body, mbind, M_bind, bind, host. cbn [out world log].
    rewrite Hr. cbn [out world log]. by rewrite Hc.
Qed.

(** C3: in a run that ends without an exception, the decompilations
    requested are the functions of [getFunctions(True)], once each and in
    that order, every one after the writes of the previous one, and the
    blocks in the file follow the same order.  In every run the
    decompilations requested are the first of these functions, in
    order. *)
Theorem decompiled_once_in_order h w funcs :
  getFunctions h true = Ok funcs →
  (out (script h w) = Ok tt →
   requests (log (script h w)) = (fun func => (func, 0%Z)) <$> funcs ∧
   ∃ name lang f,
     getName h = Ok name ∧ getLanguageID h = Ok lang ∧
     log (script h w) =
       setup name ++ preamble f name lang ++ flat_map (iteration h f) funcs ++
       [Ev (CClose f) None; Ev (CPrint (message name)) None; Ev CDispose None] ∧
     w_files (world (script h w)) !! output_file_of name =
       Some (header name lang +:+
             join ((fun code => code +:+ nl +:+ nl) <$> omap (completed_code h) funcs))) ∧
  requests (log (script h w)) `prefix_of` ((fun func => (func, 0%Z)) <$> funcs).
Proof.
  intros Hfuncs. split.
  - intros Hok.
    destruct (script_ok h w Hok)
      as (name & lang & funcs' & f & Hname & Hlang & Hfuncs' & _ & Hlog & Hfile & _).
    assert (funcs' = funcs) as -> by congruence.
    split.
    + rewrite Hlog, !requests_app, requests_loop. cbn. by rewrite app_nil_r.
    + by exists name, lang, f.
  - destruct (getName h) as [name|e] eqn:Hname.
    + by apply (script_so_far h w name).
    + unfold script, mbind, M_bind, bind, host. cbn [out world log].
      rewrite Hname. apply prefix_nil.
Qed.


(** C8: a run that ends without an exception leaves contents that do not
    depend on what the machine held before, so running the script again
    leaves the file as the first run left it. *)
Theorem rerun_overwrites h w name :
  getName h = Ok name →
  out (script h w) = Ok tt →
  (∀ w', out (script h w') = Ok tt →
     w_files (world (script h w')) !! output_file_of name =
     w_files (world (script h w)) !! output_file_of name) ∧
  (out (script h (world (script h w))) = Ok tt →
     w_files (world (script h (world (script h w)))) !! output_file_of name =
     w_files (world (script h w)) !! output_file_of name).
Proof.
  intros Hname Hok.
  assert (∀ w', out (script h w') = Ok tt →
     w_files (world (script h w')) !! output_file_of name =
     w_files (world (script h w)) !! output_file_of name) as Hany.
  { intros w' Hok'.
    destruct (script_ok h w Hok)
      as (n1 & l1 & fs1 & f1 & Hn1 & Hl1 & Hf1 & _ & _ & Hfile1 & _).
    destruct (script_ok h w' Hok')
      as (n2 & l2 & fs2 & f2 & Hn2 & Hl2 & Hf2 & _ & _ & Hfile2 & _).
    assert (n1 = name ∧ n2 = name ∧ l1 = l2 ∧ fs1 = fs2)
      as (-> & -> & -> & ->) by (repeat split; congruence).
    by rewrite Hfile1, Hfile2. }
  split; [done|]. apply Hany.
Qed.

(** ** Failures *)





(** ** The file object *)

Lemma filter_block f lb :
  Forall (fun ev : event => block_call f (call_of ev) = true) lb →
  Forall (fun ev : event => ∃ s r, ev = Ev (CWrite f s) r) (List.filter is_file_event lb).
Proof.
  induction 1 as [|[c r] lb Hc _ IH]; [constructor|].
  destruct c; cbn in *; try done.
  constructor; [|done]. case_bool_decide; [|done]. subst. eauto.
Qed.

Lemma filter_none l :
  Forall (fun ev : event => is_file_event ev = false) l → List.filter is_file_event l = [].
Proof. induction 1 as [|ev l Hev _ IH]; [done|]. cbn. by rewrite Hev. Qed.

Lemma file_events_early e l :
  early e l →
  List.filter is_file_event l = [] ∨
  ∃ p, List.filter is_file_event l = [Ev (COpen p ModeW) (Some e)].
Proof.
  intros (pre & c & -> & _ & Hsetup & Hpre).
  rewrite List.filter_app, (filter_none _ Hpre).
  apply Forall_app in Hsetup as [_ Hc]. apply Forall_cons in Hc as [Hc _].
  destruct c as [| | | |p []| | | | | | | | | | |]; cbn in *; try done; eauto.
Qed.

Lemma file_events_entered w name f lb rc (R : Res unit) :
  entered w name f lb rc R →
  ∃ ws, List.filter is_file_event (log R) =
          Ev (COpen (output_file_of name) ModeW) None :: ws ++ [Ev (CClose f) rc] ∧
        Forall (fun ev : event => ∃ s r, ev = Ev (CWrite f s) r) ws.
Proof.
  intros [_ Hlog Hcalls _ _ _ _ _ _ _ _ _].
  exists (List.filter is_file_event lb). split; [|by apply filter_block].
  rewrite Hlog, !List.filter_app. by destruct (out R).
Qed.

(** C6: among the calls of a run, those on files are either none, or one
    [open] that raised, or one [open] that returned, then writes to the
    file object it returned and nothing else, then the closing of that
    file object, whether the block raised or not and whether the closing
    itself raises or not; in a run that ends without an exception the
    closing returned.  No file object is left open. *)
Theorem file_opened_once_closed_always h w :
  (List.filter is_file_event (log (script h w)) = [] ∨
   (∃ p e, List.filter is_file_event (log (script h w)) =
             [Ev (COpen p ModeW) (Some e)]) ∨
   (∃ p f ws r,
      List.filter is_file_event (log (script h w)) =
        Ev (COpen p ModeW) None :: ws ++ [Ev (CClose f) r] ∧
      Forall (fun ev : event => ∃ s r', ev = Ev (CWrite f s) r') ws ∧
      w_open w !! f = None)) ∧
  (out (script h w) = Ok tt →
   ∃ p f ws,
      List.filter is_file_event (log (script h w)) =
        Ev (COpen p ModeW) None :: ws ++ [Ev (CClose f) None] ∧
      Forall (fun ev : event => ∃ s r', ev = Ev (CWrite f s) r') ws) ∧
  w_open (world (script h w)) = w_open w.
Proof.
  destruct (script_any h w)
    as [(e & Hout & Hw & Hearly)|(name & f & rc & _ & _ & _ & Hen & Hout)].
  - repeat split.
    + destruct (file_events_early _ _ Hearly) as [?|[p ?]]; eauto.
    + by rewrite Hout.
    + by rewrite Hw.
  - destruct (file_events_entered _ _ _ _ _ _ Hen) as (ws & Hfe & Hws).
    repeat split.
    + right. right. exists (output_file_of name), f, ws, rc.
      repeat split; try done. by destruct Hen.
    + intros Hok. rewrite Hok in Hout. destruct rc; [done|].
      by exists (output_file_of name), f, ws.
    + by destruct Hen.
Qed.

(** ** The objects of the host *)

Lemma setup_call_reads c :
  is_setup c = true → host_owned (receiver c) = true → method c ∈ accessors.
Proof. destruct c; try done. intros _ _. by repeat constructor. Qed.

Lemma block_call_reads f c :
  block_call f c = true → host_owned (receiver c) = true → method c ∈ accessors.
Proof. destruct c; try done; intros _ _; by repeat constructor. Qed.

(** C7: the only methods a run calls on the program, its function
    manager, the decompile results and the decompiled functions are
    accessors; the run leaves the arguments, the environment, the
    directories, the table of open files and every file but the output
    file as they were, and adds at most its final message to the standard
    output. *)
Theorem host_objects_only_read h w :
  Forall (fun ev : event => host_owned (receiver (call_of ev)) = true →
                    method (call_of ev) ∈ accessors)
         (log (script h w)) ∧
  w_argv (world (script h w)) = w_argv w ∧
  w_environ (world (script h w)) = w_environ w ∧
  w_cwd (world (script h w)) = w_cwd w ∧
  w_dirs (world (script h w)) = w_dirs w ∧
  w_open (world (script h w)) = w_open w ∧
  (∀ q, (∀ name, getName h = Ok name → q ≠ output_file_of name) →
        w_files (world (script h w)) !! q = w_files w !! q) ∧
  (w_stdout (world (script h w)) = w_stdout w ∨
   ∃ name, getName h = Ok name ∧
           w_stdout (world (script h w)) =
             w_stdout w +:+ "Decompiled code written to " +:+
             output_file_of name +:+ nl).
Proof.
  destruct (script_any h w)
    as [(e & Hout & -> & (pre & c & Hl & _ & Hsetup & _))|
        (name & f & rc & Hname & _ & _ & Hen & _)].
  - repeat split; auto.
    eapply Forall_impl; [exact Hsetup|].
    intros [c' r]. apply setup_call_reads.
  - destruct Hen as [_ Hlog Hcalls _ ? ? ? ? ? Hq _ Hs].
    repeat split; auto.
    + rewrite Hlog. repeat apply Forall_app_2.
      * unfold setup. repeat constructor; done.
      * eapply Forall_impl; [exact Hcalls|]. intros [c' r]. apply block_call_reads.
      * destruct (out (script h w)); repeat constructor; done.
    + destruct (out (script h w)); eauto.
Qed.

(** ** Runs on a machine that takes the export *)

Lemma has_space_le w n m : (m ≤ n)%nat → has_space w n → has_space w m.
Proof. unfold has_space. destruct (w_space w); [lia|done]. Qed.

Lemma bind_ok_intro {A B} (m : M A) (k : A → M B) w a b :
  out (m w) = Ok a → out (k a (world (m w))) = Ok b → out (bind m k w) = Ok b.
Proof. unfold bind. by intros ->. Qed.

Lemma bind_assoc_ok {A B} (m : M A) (k : A → M B) w a :
  out (m w) = Ok a →
  bind m k w = mkRes (out (k a (world (m w)))) (world (k a (world (m w))))
                     (log (m w) ++ log (k a (world (m w)))).
Proof. unfold bind. by intros ->. Qed.

Lemma bind_host_ok {A B} c (a : A) (k : A → M B) w :
  bind (host c (Ok a)) k w =
    mkRes (out (k a w)) (world (k a w)) (Ev c None :: log (k a w)).
Proof. reflexivity. Qed.

(** A write does not change what the machine can encode. *)
Lemma write_encodes f s w t : encodes (world (write f s w)) t = encodes w t.
Proof.
  unfold write. destruct (w_open w !! f) as [[p pending]|]; [|done].
  destruct (encodes w s); [|done]. by case_bool_decide.
Qed.

(** A write of a text the machine can encode returns when the device has
    room for it, whatever the buffer passes on. *)
Lemma write_succeeds f s w p n :
  room w f p (String.length s + n) → encodes w s = true →
  out (write f s w) = Ok tt ∧ room (world (write f s w)) f p n.
Proof.
  intros (pending & Hf & Hsp) Henc. unfold write. rewrite Hf, Henc.
  set (buf := pending +:+ s).
  set (k := Nat.min (w_flush w pending s) (String.length buf)).
  assert (String.length buf = String.length pending + String.length s) as Hbuf
    by apply length_append.
  assert (k ≤ String.length buf) as Hk by (unfold k; lia).
  assert (accepted w k = k) as Ha.
  { apply (accepted_all w k 0). eapply has_space_le; [|exact Hsp]. lia. }
  rewrite Ha. rewrite bool_decide_eq_false_2 by lia.
  split; [done|]. exists (drop_str k buf). cbn [world].
  split; [cbn; apply lookup_insert_eq|].
  rewrite length_drop_str. unfold has_space in *. cbn.
  rewrite length_take_str by done.
  destruct (w_space w); cbn; [lia|done].
Qed.

(** Closing returns when the device has room for what is pending. *)
Lemma close_succeeds f w p : room w f p 0 → out (close f w) = Ok tt.
Proof.
  intros (pending & Hf & Hsp). unfold close. rewrite Hf.
  rewrite (accepted_all w _ 0) by done.
  by rewrite bool_decide_eq_false_2 by lia.
Qed.

Lemma loop_body_succeeds h f p func w n :
  answered h func →
  Forall (fun s => encodes w s = true) (contribution h func) →
  room w f p (String.length (join (contribution h func)) + n) →
  out (loop_body h f func w) = Ok tt ∧
  room (world (loop_body h f func w)) f p n ∧
  (∀ t, encodes (world (loop_body h f func w)) t = encodes w t).
Proof.
  intros (r & Hr & Hsome).
  unfold contribution, completed_code, loop_body, mbind, M_bind, bind, host.
  cbn [out world log]. rewrite Hr. cbn [out world log].
  destruct (decompileCompleted r).
  2: { cbn [join String.length Nat.add]. intros _ Hroom. by cbn. }
  destruct (Hsome eq_refl) as [d ->]. cbn [fmap option_fmap option_map].
  intros Henc Hroom. cbn [out world log].
  apply Forall_cons in Henc as [He1 Henc]. apply Forall_cons in Henc as [He2 _].
  cbn [join] in Hroom. rewrite append_nil_r, length_append, <- Nat.add_assoc in Hroom.
  destruct (write_succeeds f (getC d) w p _ Hroom He1) as (H1 & Hroom1).
  rewrite H1. cbn [out world log].
  rewrite <- (write_encodes f (getC d) w) in He2.
  destruct (write_succeeds f (nl +:+ nl) _ p n Hroom1 He2) as (H2 & Hroom2).
  rewrite H2. repeat split; [done|].
  intros t. by rewrite !write_encodes.
Qed.

Lemma loop_succeeds h f p funcs w n :
  Forall (answered h) funcs →
  Forall (fun s => encodes w s = true) (flat_map (contribution h) funcs) →
  room w f p (String.length (join (flat_map (contribution h) funcs)) + n) →
  out (for_each funcs (loop_body h f) w) = Ok tt ∧
  room (world (for_each funcs (loop_body h f) w)) f p n.
Proof.
  intros Hall. revert w.
  induction Hall as [|func funcs Hfunc _ IH]; intros w Henc Hroom; [done|].
  cbn [for_each flat_map] in *. unfold mbind, M_bind.
  apply Forall_app in Henc as [Henc1 Henc2].
  rewrite join_app, length_append, <- Nat.add_assoc in Hroom.
  destruct (loop_body_succeeds h f p func w _ Hfunc Henc1 Hroom)
    as (Hok & Hroom' & Hsame).
  rewrite (bind_assoc_ok _ _ _ _ Hok). cbn [out world].
  apply IH; [|done].
  eapply Forall_impl; [exact Henc2|]. intros s Hs. by rewrite Hsame.
Qed.

(** The block up to its loop, when the language can be read and the
    functions listed. *)
Lemma with_block_enter h name lang funcs f p w n :
  getLanguageID h = Ok lang → getFunctions h true = Ok funcs →
  encodes w ("// Decompiled code for " +:+ name +:+ nl) = true →
  encodes w ("// Language: " +:+ lang +:+ nl +:+ nl) = true →
  room w f p (String.length ("// Decompiled code for " +:+ name +:+ nl) +
              (String.length ("// Language: " +:+ lang +:+ nl +:+ nl) + n)) →
  ∃ w2, room w2 f p n ∧ (∀ t, encodes w2 t = encodes w t) ∧
        with_block h name f w =
          mkRes (out (for_each funcs (loop_body h f) w2))
                (world (for_each funcs (loop_body h f) w2))
                (preamble f name lang ++ log (for_each funcs (loop_body h f) w2)).
Proof.
  intros Hlang Hfuncs He1 He2 Hroom.
  destruct (write_succeeds f _ w p _ Hroom He1) as (H1 & Hroom1).
  rewrite <- (write_encodes f ("// Decompiled code for " +:+ name +:+ nl) w) in He2.
  destruct (write_succeeds f _ _ p n Hroom1 He2) as (H2 & Hroom2).
  eexists. split; [exact Hroom2|]. split.
  { intros t. by rewrite !write_encodes. }
  unfold with_block, mbind, M_bind. rewrite Hlang, Hfuncs.
  rewrite (bind_assoc_ok _ _ _ _ H1). cbn [out world log].
  rewrite bind_host_ok. cbn [out world log].
  rewrite (bind_assoc_ok _ _ _ _ H2). cbn [out world log].
  rewrite !bind_host_ok. cbn [out world log].
  rewrite (write_ok_inv _ _ _ H1), (write_ok_inv _ _ _ H2). reflexivity.
Qed.

(** After [open] the device has for the new file whatever room it had. *)
Lemma opened_room w name f ss :
  accepts w ss →
  room (opened w name f) f (output_file_of name) (String.length (join ss)) ∧
  (∀ t, encodes (opened w name f) t = encodes w t).
Proof.
  intros [_ Hsp]. split; [|done]. exists "".
  split; [cbn; apply lookup_insert_eq|].
  unfold has_space in *. cbn. destruct (w_space w); cbn; [lia|done].
Qed.

Lemma script_not_early h w name b :
  getName h = Ok name → openProgram h = Ok b →
  output_file_of name ∉ w_dirs w →
  os_path_dirname (output_file_of name) ∈ w_dirs w →
  script h w =
    finish name (fresh (dom (w_open w)))
           (with_block h name (fresh (dom (w_open w)))
                       (opened w name (fresh (dom (w_open w))))).
Proof.
  intros Hname Hopen Hd Hp.
  destruct (script_run h w) as [(e & l & _ & _ & Hcause)|(n & f & Hn & -> & _ & _ & ->)].
  - destruct Hcause as [?|(n & Hn & [?|[?|?]])]; try congruence.
    all: assert (n = name) as -> by congruence; done.
  - by assert (n = name) as -> by congruence.
Qed.

(** A run that entered the block and whose device had room, at the end
    of the block, for what was pending: the closing returns, and the file
    holds all that the writes took. *)
Lemma script_closed h w name b (f := fresh (dom (w_open w)))
    (Rb := with_block h name f (opened w name f)) :
  getName h = Ok name → openProgram h = Ok b →
  output_file_of name ∉ w_dirs w →
  os_path_dirname (output_file_of name) ∈ w_dirs w →
  room (world Rb) f (output_file_of name) 0 →
  out (script h w) = out Rb ∧
  w_files (world (script h w)) !! output_file_of name =
    Some (join (taken f (log Rb))) ∧
  (∃ post, log (script h w) = setup name ++ log Rb ++ Ev (CClose f) None :: post ∧
           requests post = []) ∧
  (∀ e, out Rb = Raise e → w_stdout (world (script h w)) = w_stdout w).
Proof.
  intros Hname Hopen Hd Hp Hroom.
  pose proof (close_succeeds _ _ _ Hroom) as Hclose.
  destruct (script_any h w)
    as [(e & Hout & _ & (pre & c & Hl & _ & _ & Hnf))|
        (n & f' & rc & Hn & Hf' & Hrc & Hen & Hout)].
  { exfalso. rewrite (script_not_early h w name b) in Hl by done.
    assert (Ev (COpen (output_file_of name) ModeW) None ∈ pre ++ [Ev c (Some e)]) as Hin.
    { rewrite <- Hl. unfold finish.
      repeat match goal with
             | |- context [match out ?R with _ => _ end] => destruct (out R)
             end; cbn [log]; apply elem_of_app; left;
        unfold setup; do 4 apply list_elem_of_further; apply list_elem_of_here. }
    apply elem_of_app in Hin as [Hin|Hin%list_elem_of_singleton]; [|done].
    rewrite Forall_forall in Hnf. by specialize (Hnf _ Hin). }
  assert (n = name) as -> by congruence. subst f'. fold f in Hrc, Hen, Hout.
  fold Rb in Hrc, Hen, Hout. rewrite Hclose in Hrc. cbn in Hrc. subst rc.
  destruct Hen as [_ Hlog _ _ _ _ _ _ _ _ (content & rest & Hfile & Hjoin & Hrest) Hs].
  rewrite (Hrest eq_refl), append_nil_r in Hjoin.
  split; [done|]. split; [by rewrite Hfile, Hjoin|]. split.
  - eexists. split; [exact Hlog|]. by destruct (out (script h w)).
  - intros e He. rewrite Hout, He in Hs. exact Hs.
Qed.

(** ** A program without functions *)

(** C9: when the program has no function, its name and language can be
    read, the decompiler opens it, the output directory exists and the
    machine takes the two header texts, the run ends without an exception,
    the file holds the two comment lines and the empty line and nothing
    else, and the message is printed. *)
Theorem no_functions_header_only h w name lang b :
  getName h = Ok name → openProgram h = Ok b →
  getLanguageID h = Ok lang → getFunctions h true = Ok [] →
  output_file_of name ∉ w_dirs w →
  os_path_dirname (output_file_of name) ∈ w_dirs w →
  accepts w ["// Decompiled code for " +:+ name +:+ nl;
             "// Language: " +:+ lang +:+ nl +:+ nl] →
  out (script h w) = Ok tt ∧
  w_files (world (script h w)) !! output_file_of name =
    Some ("// Decompiled code for " +:+ name +:+ nl +:+
          "// Language: " +:+ lang +:+ nl +:+ nl) ∧
  w_stdout (world (script h w)) =
    w_stdout w +:+ "Decompiled code written to " +:+ output_file_of name +:+ nl ∧
  requests (log (script h w)) = [].
Proof.
  intros Hname Hopen Hlang Hfuncs Hd Hp Hacc.
  assert (out (script h w) = Ok tt) as Hok.
  { set (f := fresh (dom (w_open w))).
    destruct (opened_room w name f _ Hacc) as [Hroom Hsame].
    pose proof Hacc as [Henc _].
    apply Forall_cons in Henc as [He1 Henc]. apply Forall_cons in Henc as [He2 _].
    rewrite <- Hsame in He1, He2.
    cbn [join] in Hroom. rewrite append_nil_r, length_append in Hroom.
    rewrite <- (Nat.add_0_r (String.length ("// Language: " +:+ lang +:+ nl +:+ nl)))
      in Hroom.
    destruct (with_block_enter h name lang [] f _ _ 0 Hlang Hfuncs He1 He2 Hroom)
      as (w2 & Hroom2 & _ & Hblock).
    destruct (script_closed h w name b Hname Hopen Hd Hp) as (Hout & _).
    { fold f. rewrite Hblock. exact Hroom2. }
    rewrite Hout. fold f. by rewrite Hblock. }
  split; [done|].
  destruct (script_ok h w Hok)
    as (n & l & fs & f & Hn & Hl & Hfs & _ & Hlog & Hfile & Hout & _).
  assert (n = name ∧ l = lang ∧ fs = []) as (-> & -> & ->)
    by (repeat split; congruence).
  repeat split.
  - rewrite Hfile. unfold header, blocks. cbn [omap list_omap fmap list_fmap join].
    by rewrite append_nil_r.
  - done.
  - by rewrite Hlog.
Qed.

(** ** Disposing of the decompiler *)

Lemma block_call_not_dispose f lb :
  Forall (fun ev : event => block_call f (call_of ev) = true) lb →
  Forall (fun ev : event => is_dispose ev = false) lb.
Proof.
  intros H. eapply Forall_impl; [exact H|]. intros [c r]. by destruct c.
Qed.

Lemma setup_not_dispose l :
  Forall (fun ev : event => is_setup (call_of ev) = true) l →
  Forall (fun ev : event => is_dispose ev = false) l.
Proof.
  intros H. eapply Forall_impl; [exact H|]. intros [c r]. by destruct c.
Qed.

(** C10: in a run that ends without an exception the last three calls
    are the closing of the file, the message and [dispose], in this order,
    and [dispose] is called nowhere before; in a run that ends with an
    exception [dispose] is never called, no file object is left open, and
    when [open] had returned the closing of the file was the last call:
    the file holds, of what the writes took, all when the closing returned
    and a beginning when it raised. *)
Theorem dispose_after_close h w :
  (out (script h w) = Ok tt →
   ∃ pre f name,
     log (script h w) =
       pre ++ [Ev (CClose f) None;
               Ev (CPrint ("Decompiled code written to " +:+ output_file_of name)) None;
               Ev CDispose None] ∧
     Forall (fun ev : event => is_dispose ev = false) pre) ∧
  (∀ e, out (script h w) = Raise e →
     Forall (fun ev : event => is_dispose ev = false) (log (script h w)) ∧
     w_open (world (script h w)) = w_open w ∧
     ∀ p, Ev (COpen p ModeW) None ∈ log (script h w) →
       ∃ f pre r content rest,
         log (script h w) = pre ++ [Ev (CClose f) r] ∧
         w_files (world (script h w)) !! p = Some content ∧
         join (taken f (log (script h w))) = content +:+ rest ∧
         (r = None → rest = "")).
Proof.
  destruct (script_any h w) as [(e & Hout & Hw & (pre & c & Hl & Hpre & Hsetup & Hnf))|
                                (name & f & rc & Hname & _ & _ & Hen & _)].
  - split; [by rewrite Hout|]. intros e' _. repeat split.
    + by apply setup_not_dispose.
    + by rewrite Hw.
    + intros p Hin. exfalso. rewrite Hl in Hin.
      apply elem_of_app in Hin as [Hin|Hin%list_elem_of_singleton]; [|done].
      rewrite Forall_forall in Hnf. by specialize (Hnf _ Hin).
  - destruct Hen as [_ Hlog Hcalls (ob & _ & Hob) _ _ _ _ Ho _
                       (content & rest & Hfile & Hjoin & Hrest) _].
    pose proof (block_call_not_dispose _ _ Hcalls) as Hnd.
    split.
    + intros Hout. rewrite Hout in Hlog, Hob. destruct rc; [done|].
      exists (setup name ++ log (with_block h name f (opened w name f))), f, name.
      split; [by rewrite Hlog, <- app_assoc|].
      apply Forall_app. split; [by repeat constructor|done].
    + intros e Hout. rewrite Hout in Hlog. repeat split; [|done|].
      * rewrite Hlog. repeat apply Forall_app_2; by repeat constructor.
      * intros p Hin.
        exists f, (setup name ++ log (with_block h name f (opened w name f))),
               rc, content, rest.
        split; [by rewrite Hlog, <- app_assoc|].
        assert (p = output_file_of name) as ->.
        { rewrite Hlog in Hin.
          apply elem_of_app in Hin as [Hin|Hin].
          - unfold setup in Hin. rewrite !elem_of_cons in Hin.
            destruct Hin as [?|[?|[?|[?|[?|Hin]]]]]; try done; [congruence|].
            by apply elem_of_nil in Hin.
          - exfalso. apply elem_of_app in Hin as [Hin|Hin%list_elem_of_singleton]; [|done].
            rewrite Forall_forall in Hcalls. by specialize (Hcalls _ Hin). }
        repeat split; [done| |done].
        rewrite Hlog, !taken_app. cbn [setup taken]. by rewrite app_nil_r.
Qed.

(** * Further properties of the script *)

(** ** The output path *)

Lemma startswith_sep_suffix name :
  startswith_sep (name +:+ "_decomp.c") = startswith_sep name.
Proof. by destruct name. Qed.

Lemma append_inj_r (a b s : string) : a +:+ s = b +:+ s → a = b.
Proof.
  revert b. induction a as [|x a IH]; intros [|y b] H.
  - done.
  - apply (f_equal String.length) in H.
    rewrite !length_append in H. cbn in H. lia.
  - apply (f_equal String.length) in H.
    rewrite !length_append in H. cbn in H. lia.
  - rewrite !append_cons in H. injection H as -> H. f_equal. by apply IH.
Qed.

Lemma output_file_shape_aux name :
  (startswith_sep name = false →
     output_file_of name = output_dir +:+ "/" +:+ name +:+ "_decomp.c") ∧
  (startswith_sep name = true → output_file_of name = name +:+ "_decomp.c").
Proof.
  unfold output_file_of, os_path_join. rewrite startswith_sep_suffix.
  split; by intros ->.
Qed.

(** X1: for a program name that does not start with a separator the
    output file is the output directory, a separator, the name and the
    suffix; a name that starts with a separator replaces the output
    directory altogether.  The path is absolute in both cases. *)
Theorem output_file_shape name :
  (startswith_sep name = false →
     output_file_of name = output_dir +:+ "/" +:+ name +:+ "_decomp.c") ∧
  (startswith_sep name = true → output_file_of name = name +:+ "_decomp.c") ∧
  startswith_sep (output_file_of name) = true.
Proof.
  unfold output_file_of, os_path_join. rewrite startswith_sep_suffix.
  repeat split.
  - by intros ->.
  - by intros ->.
  - destruct (startswith_sep name) eqn:E; [|done].
    by rewrite startswith_sep_suffix.
Qed.

(** X2: the path the script computes determines the program name: two
    different names that do not start with a separator give two different
    path strings.  This is a fact about the strings [os.path.join]
    returns; two different strings can still name one file. *)
Theorem output_file_injective name1 name2 :
  startswith_sep name1 = false → startswith_sep name2 = false →
  name1 ≠ name2 → output_file_of name1 ≠ output_file_of name2.
Proof.
  intros H1 H2 Hne H. apply Hne. revert H. unfold output_file_of, os_path_join.
  rewrite !startswith_sep_suffix, H1, H2. cbn [orb bool_decide].
  change (bool_decide (output_dir = "") || endswith_sep output_dir) with false.
  cbn match. intros H.
  apply (inj (String.append output_dir)) in H.
  apply (inj (String.append "/")) in H.
  by apply append_inj_r in H.
Qed.

Lemma has_sep_app (a b : string) : has_sep (a +:+ b) = has_sep a || has_sep b.
Proof.
  induction a as [|x a IH]; [done|].
  rewrite append_cons. cbn [has_sep]. by rewrite IH, orb_assoc.
Qed.

Lemma upto_last_sep_none (t : string) : has_sep t = false → upto_last_sep t = None.
Proof.
  induction t as [|x t IH]; [done|]. cbn [has_sep upto_last_sep].
  intros [Hx Ht]%orb_false_iff. by rewrite (IH Ht), Hx.
Qed.

Lemma upto_last_sep_app (a t : string) :
  has_sep t = false → upto_last_sep (a +:+ "/" +:+ t) = Some (a +:+ "/").
Proof.
  intros Ht. induction a as [|x a IH].
  - change ("" +:+ "/" +:+ t) with (String "/" t).
    cbn [upto_last_sep]. by rewrite (upto_last_sep_none t Ht).
  - rewrite !(append_cons x a). cbn [upto_last_sep]. by rewrite IH.
Qed.

(** X3: for a program name without separator the directory of the output
    file is the output directory itself. *)
Theorem output_file_dirname name :
  has_sep name = false → os_path_dirname (output_file_of name) = output_dir.
Proof.
  intros Hname.
  assert (startswith_sep name = false) as Hs.
  { destruct name as [|c name]; [done|]. cbn in *.
    by apply orb_false_iff in Hname as [-> _]. }
  rewrite (proj1 (output_file_shape_aux name) Hs).
  unfold os_path_dirname.
  rewrite upto_last_sep_app by (by rewrite has_sep_app, Hname).
  reflexivity.
Qed.

(** ** Runs that stop early *)

(** X5: a run that stops before [open] returns leaves the machine exactly
    as it found it: an earlier output file keeps its content.  This is the
    case when [openProgram] raises, when the output path is a directory and
    when its directory is missing. *)
Theorem early_failure_preserves_world h w :
  ((∀ p, Ev (COpen p ModeW) None ∉ log (script h w)) →
     world (script h w) = w ∧ ∃ e, out (script h w) = Raise e) ∧
  (∀ name e, getName h = Ok name → openProgram h = Raise e →
     world (script h w) = w) ∧
  (∀ name b, getName h = Ok name → openProgram h = Ok b →
     output_file_of name ∈ w_dirs w →
     out (script h w) = Raise IsADirectoryError ∧ world (script h w) = w) ∧
  (∀ name b, getName h = Ok name → openProgram h = Ok b →
     output_file_of name ∉ w_dirs w →
     os_path_dirname (output_file_of name) ∉ w_dirs w →
     world (script h w) = w).
Proof.
  split; [|split; [|split]].
  - intros Hno.
    destruct (script_any h w)
      as [(e & Hout & Hw & _)|(name & f & rc & _ & _ & _ & Hen & _)]; [eauto|].
    exfalso. apply (Hno (output_file_of name)).
    rewrite (en_log _ _ _ _ _ _ Hen). apply elem_of_app. left.
    unfold setup. do 4 apply list_elem_of_further. apply list_elem_of_here.
  - intros name e Hname Hopen.
    unfold script, with_open, mbind, M_bind, bind, host.
    cbn [out world log]. by rewrite Hname, Hopen.
  - intros name b Hname Hopen Hd.
    destruct (open_output_file w name) as [(_ & Ho)|[(Hd' & _)|(Hd' & _)]];
      [|done|done].
    unfold script, with_open, mbind, M_bind, bind, host.
    cbn [out world log]. rewrite Hname, Hopen. cbn [out world log]. by rewrite Ho.
  - intros name b Hname Hopen Hd Hp.
    destruct (open_output_file w name) as [(Hd' & _)|[(_ & _ & Ho)|(_ & Hp' & _)]];
      [done| |done].
    unfold script, with_open, mbind, M_bind, bind, host.
    cbn [out world log]. rewrite Hname, Hopen. cbn [out world log]. by rewrite Ho.
Qed.

(** X6: when the language identifier cannot be read, on a machine that
    takes the first header line, the run ends with that exception after
    the file was truncated and the first header line written: the file
    holds this line alone, whatever it held before, and no decompilation
    was requested. *)
Theorem language_failure_truncates h w name b e :
  getName h = Ok name → openProgram h = Ok b →
  getLanguageID h = Raise e →
  output_file_of name ∉ w_dirs w →
  os_path_dirname (output_file_of name) ∈ w_dirs w →
  accepts w ["// Decompiled code for " +:+ name +:+ nl] →
  out (script h w) = Raise e ∧
  w_files (world (script h w)) !! output_file_of name =
    Some ("// Decompiled code for " +:+ name +:+ nl) ∧
  requests (log (script h w)) = [] ∧
  w_stdout (world (script h w)) = w_stdout w.
Proof.
  intros Hname Hopen Hlang Hd Hp Hacc.
  set (f := fresh (dom (w_open w))).
  destruct (opened_room w name f _ Hacc) as [Hroom Hsame].
  pose proof Hacc as [Henc _]. apply Forall_cons in Henc as [He1 _].
  rewrite <- Hsame in He1.
  cbn [join] in Hroom. rewrite append_nil_r in Hroom.
  rewrite <- (Nat.add_0_r (String.length _)) in Hroom.
  destruct (write_succeeds f _ _ _ 0 Hroom He1) as (H1 & Hroom1).
  assert (with_block h name f (opened w name f) =
          mkRes (Raise e)
                (world (write f ("// Decompiled code for " +:+ name +:+ nl)
                              (opened w name f)))
                [Ev (CWrite f ("// Decompiled code for " +:+ name +:+ nl)) None;
                 Ev CGetLanguageID (Some e)]) as Hblock.
  { unfold with_block, mbind, M_bind. rewrite Hlang.
    rewrite (bind_assoc_ok _ _ _ _ H1). cbn [out world log].
    unfold bind at 1. cbn [host out world log raised].
    by rewrite (write_ok_inv _ _ _ H1). }
  destruct (script_closed h w name b Hname Hopen Hd Hp)
    as (Hout & Hfile & (post & Hlog & Hpost) & Hs).
  { fold f. rewrite Hblock. exact Hroom1. }
  fold f in Hout, Hfile, Hlog, Hs. rewrite Hblock in Hout, Hfile, Hlog, Hs.
  cbn [out world log] in *.
  repeat split.
  - done.
  - rewrite Hfile. cbn [taken]. rewrite bool_decide_eq_true_2 by done.
    cbn [takes andb join]. by rewrite append_nil_r.
  - rewrite Hlog, !requests_app. cbn [setup requests app]. exact Hpost.
  - by apply (Hs e).
Qed.

(** X7: the value [openProgram] returns is not looked at: two hosts that
    differ only in it give the same run. *)
Theorem openProgram_result_ignored h1 h2 w b1 b2 :
  openProgram h1 = Ok b1 → openProgram h2 = Ok b2 →
  getName h1 = getName h2 → getLanguageID h1 = getLanguageID h2 →
  getFunctions h1 = getFunctions h2 →
  decompileFunction h1 = decompileFunction h2 →
  script h1 w = script h2 w.
Proof.
  destruct h1, h2. cbn. intros -> -> -> -> -> ->. reflexivity.
Qed.

(** X9: a result that reports completion without a decompiled function
    makes the iteration raise [AttributeError] at [getC], before anything
    is written. *)
Theorem completed_without_function_raises h f func w r :
  decompileFunction h func 0 = Ok r →
  decompileCompleted r = true → getDecompiledFunction r = None →
  loop_body h f func w =
    mkRes (Raise AttributeError) w
          [Ev (CDecompileFunction func 0) None; Ev (CDecompileCompleted func) None;
           Ev (CGetDecompiledFunction func) None; Ev (CGetC func) (Some AttributeError)].
Proof.
  intros Hr Hc Hd.
  unfold loop_body, mbind, M_bind, bind, host. cbn [out world log].
  rewrite Hr. cbn [out world log]. rewrite Hc. cbn [out world log].
  by rewrite Hd.
Qed.

Lemma block_call_not_print f lb :
  Forall (fun ev : event => block_call f (call_of ev) = true) lb →
  Forall (fun ev : event => is_print ev = false) lb.
Proof.
  intros H. eapply Forall_impl; [exact H|]. intros [c r]. by destruct c.
Qed.

Lemma setup_not_print l :
  Forall (fun ev : event => is_setup (call_of ev) = true) l →
  Forall (fun ev : event => is_print ev = false) l.
Proof.
  intros H. eapply Forall_impl; [exact H|]. intros [c r]. by destruct c.
Qed.

(** X11: a run that ends with an exception prints nothing: the message
    appears only at the end of a run in which no call raised. *)
Theorem failed_run_prints_nothing h w e :
  out (script h w) = Raise e →
  w_stdout (world (script h w)) = w_stdout w ∧
  Forall (fun ev : event => is_print ev = false) (log (script h w)).
Proof.
  intros Hout.
  destruct (script_any h w) as [(e' & _ & -> & (pre & c & _ & _ & Hsetup & _))|
                                (name & f & rc & _ & _ & _ & Hen & _)].
  - split; [done|]. by apply setup_not_print.
  - destruct Hen as [_ Hlog Hcalls _ _ _ _ _ _ _ _ Hs]. rewrite Hout in Hlog, Hs.
    split; [done|]. rewrite Hlog.
    repeat apply Forall_app_2; [by repeat constructor| |by repeat constructor].
    by apply (block_call_not_print f).
Qed.

(** ** A decompilation that raises *)

Lemma iteration_ok h f func : Forall ev_ok (iteration h f func).
Proof. unfold iteration. destruct (completed_code h func); by repeat constructor. Qed.

Lemma loop_stops h f p before func rest e w :
  Forall (answered h) before →
  decompileFunction h func 0 = Raise e →
  Forall (fun s => encodes w s = true) (flat_map (contribution h) before) →
  room w f p (String.length (join (flat_map (contribution h) before)) + 0) →
  out (for_each (before ++ func :: rest) (loop_body h f) w) = Raise e ∧
  log (for_each (before ++ func :: rest) (loop_body h f) w) =
    flat_map (iteration h f) before ++ [Ev (CDecompileFunction func 0) (Some e)] ∧
  room (world (for_each (before ++ func :: rest) (loop_body h f) w)) f p 0.
Proof.
  intros Hall Hraise. revert w.
  induction Hall as [|x before Hx _ IH]; intros w Henc Hroom.
  - cbn [app for_each flat_map] in *. unfold mbind, M_bind, bind, loop_body, host.
    cbn [out world log]. rewrite Hraise. cbn [out world log]. by repeat split.
  - cbn [app for_each flat_map] in *. unfold mbind, M_bind.
    apply Forall_app in Henc as [Henc1 Henc2].
    rewrite join_app, length_append, <- Nat.add_assoc in Hroom.
    destruct (loop_body_succeeds h f p x w _ Hx Henc1 Hroom) as (Hok & Hroom' & Hsame).
    rewrite (bind_assoc_ok _ _ _ _ Hok). cbn [out log world].
    destruct (IH (world (loop_body h f x w))) as (-> & -> & Hroom''); [|done|].
    { eapply Forall_impl; [exact Henc2|]. intros s Hs. by rewrite Hsame. }
    destruct (loop_body_ok _ _ _ _ Hok) as [-> _].
    by rewrite <- app_assoc.
Qed.

(** X8: when the decompilation of a function raises, on a machine that
    takes the header and the blocks of the functions before it, the run
    ends with that exception; the functions before it have been decompiled
    and their blocks are in the file after the header, the functions after
    it are never requested, and nothing is printed. *)
Theorem decompile_failure_stops_export h w name b lang before func rest e :
  getName h = Ok name → openProgram h = Ok b → getLanguageID h = Ok lang →
  getFunctions h true = Ok (before ++ func :: rest) →
  Forall (answered h) before →
  decompileFunction h func 0 = Raise e →
  output_file_of name ∉ w_dirs w →
  os_path_dirname (output_file_of name) ∈ w_dirs w →
  accepts w (("// Decompiled code for " +:+ name +:+ nl) ::
             ("// Language: " +:+ lang +:+ nl +:+ nl) ::
             flat_map (contribution h) before) →
  out (script h w) = Raise e ∧
  requests (log (script h w)) = (fun x => (x, 0%Z)) <$> (before ++ [func]) ∧
  w_files (world (script h w)) !! output_file_of name =
    Some ("// Decompiled code for " +:+ name +:+ nl +:+
          "// Language: " +:+ lang +:+ nl +:+ nl +:+
          join ((fun code => code +:+ nl +:+ nl) <$> omap (completed_code h) before)) ∧
  w_stdout (world (script h w)) = w_stdout w.
Proof.
  intros Hname Hopen Hlang Hfuncs Hall Hraise Hd Hp Hacc.
  set (f := fresh (dom (w_open w))).
  destruct (opened_room w name f _ Hacc) as [Hroom Hsame].
  pose proof Hacc as [Henc _].
  apply Forall_cons in Henc as [He1 Henc]. apply Forall_cons in Henc as [He2 Henc].
  rewrite <- Hsame in He1, He2.
  cbn [join] in Hroom.
  rewrite (length_append ("// Decompiled code for " +:+ name +:+ nl)) in Hroom.
  rewrite (length_append ("// Language: " +:+ lang +:+ nl +:+ nl)) in Hroom.
  rewrite <- (Nat.add_0_r (String.length (join _))) in Hroom.
  destruct (with_block_enter h name lang _ f _ (opened w name f) _
              Hlang Hfuncs He1 He2 Hroom)
    as (w2 & Hroom2 & Hsame2 & Hblock).
  destruct (loop_stops h f (output_file_of name) before func rest e w2 Hall Hraise)
    as (Hout & Hlog & Hroom3).
  { eapply Forall_impl; [exact Henc|]. intros s Hs. by rewrite Hsame2, Hsame. }
  { exact Hroom2. }
  rewrite Hout, Hlog in Hblock.
  destruct (script_closed h w name b Hname Hopen Hd Hp)
    as (Hout' & Hfile & (post & Hlog' & Hpost) & Hs).
  { fold f. rewrite Hblock. exact Hroom3. }
  fold f in Hout', Hfile, Hlog', Hs. rewrite Hblock in Hout', Hfile, Hlog', Hs.
  cbn [out world log] in *.
  repeat split.
  - done.
  - rewrite Hlog', !requests_app, requests_loop, fmap_app. cbn [setup preamble requests app].
    rewrite Hpost. cbn [fmap list_fmap]. by rewrite !app_nil_r.
  - rewrite Hfile. f_equal.
    rewrite !taken_app.
    rewrite (taken_ok f (preamble f name lang)) by (by repeat constructor).
    rewrite (taken_ok f (flat_map (iteration h f) before))
      by (apply Forall_flat_map, Forall_forall; intros ? _; apply iteration_ok).
    rewrite writes_loop, !join_app, join_contributions.
    unfold preamble, blocks. cbn [writes taken].
    rewrite !bool_decide_eq_true_2 by done. cbn [join].
    by rewrite !append_nil_r, !append_assoc.
  - by apply (Hs e).
Qed.

(** ** The lines of the file *)

Lemma has_nl_app (a b : string) : has_nl (a +:+ b) = has_nl a || has_nl b.
Proof.
  induction a as [|x a IH]; [done|].
  rewrite append_cons. cbn [has_nl]. by rewrite IH, orb_assoc.
Qed.

Lemma split_nl_line (a rest : string) :
  has_nl a = false → split_nl (a +:+ nl +:+ rest) = a :: split_nl rest.
Proof.
  induction a as [|x a IH]; intros Ha.
  - change ("" +:+ nl +:+ rest) with (String "010" rest). cbn [split_nl].
    by rewrite bool_decide_eq_true_2.
  - rewrite (append_cons x a). cbn [split_nl has_nl] in *.
    apply orb_false_iff in Ha as [-> Ha]. by rewrite (IH Ha).
Qed.

(** X10: when neither the program name nor the language identifier holds
    a newline, the file left by a run without exception starts with three
    lines: the comment with the name, the comment with the language, and
    an empty line. *)
Theorem header_lines h w name lang :
  getName h = Ok name → getLanguageID h = Ok lang →
  has_nl name = false → has_nl lang = false →
  out (script h w) = Ok tt →
  ∃ content rest,
    w_files (world (script h w)) !! output_file_of name = Some content ∧
    split_nl content =
      ("// Decompiled code for " +:+ name) :: ("// Language: " +:+ lang) :: "" :: rest.
Proof.
  intros Hname Hlang Hn Hl Hok.
  destruct (script_ok h w Hok)
    as (n' & l' & funcs & f & Hn' & Hl' & _ & _ & _ & Hfile & _).
  assert (n' = name ∧ l' = lang) as [-> ->] by (split; congruence).
  eexists _, (split_nl (blocks h funcs)). split; [exact Hfile|].
  assert (header name lang +:+ blocks h funcs =
          ("// Decompiled code for " +:+ name) +:+ nl +:+
          ("// Language: " +:+ lang) +:+ nl +:+ "" +:+ nl +:+ blocks h funcs) as ->.
  { unfold header. by rewrite !append_assoc. }
  rewrite split_nl_line by (by rewrite has_nl_app, Hn).
  rewrite split_nl_line by (by rewrite has_nl_app, Hl).
  by rewrite split_nl_line.
Qed.

End Properties.

(** * The sample runs *)

Section Samples.

Import Sample.

Lemma output_file_contents_witness :
  out (script program machine) = Ok tt ∧
  ∃ name lang funcs,
    getName program = Ok name ∧ getLanguageID program = Ok lang ∧
    getFunctions program true = Ok funcs ∧
    w_files (world (script program machine)) !! output_file_of name =
      Some (("// Decompiled code for " +:+ name +:+ nl) +:+
            ("// Language: " +:+ lang +:+ nl) +:+
            nl +:+
            join ((fun code => code +:+ nl +:+ nl) <$> omap (completed_code program) funcs)).
Proof.
  split; [vm_compute; reflexivity|].
  apply (proj1 (output_file_contents program machine)). vm_compute. reflexivity.
Defined.

(** On a device that accepts forty more characters the run ends with the
    [OSError] of the closing, and the file ends in the middle of the
    second header line. *)
Lemma output_file_contents_counterexample :
  out (script program full_machine) = Raise OSError ∧
  w_files (world (script program full_machine)) !! output_file_of "libfoo.so" =
    Some ("// Decompiled code for libfoo.so" +:+ nl +:+ "// Lang") ∧
  ¬ ∃ lang funcs,
      w_files (world (script program full_machine)) !! output_file_of "libfoo.so" =
        Some (("// Decompiled code for " +:+ "libfoo.so" +:+ nl) +:+
              ("// Language: " +:+ lang +:+ nl) +:+
              nl +:+
              join ((fun code => code +:+ nl +:+ nl) <$>
                    omap (completed_code program) funcs)).
Proof.
  split; [vm_compute; reflexivity|]. split; [vm_compute; reflexivity|].
  intros (lang & funcs & H). vm_compute in H. discriminate H.
Defined.

Lemma written_iff_completed_witness :
  getFunctions program true = Ok [1; 2; 3] ∧
  out (script program machine) = Ok tt ∧
  ∃ name lang f,
    getName program = Ok name ∧ getLanguageID program = Ok lang ∧
    writes f (log (script program machine)) =
      ["// Decompiled code for " +:+ name +:+ nl;
       "// Language: " +:+ lang +:+ nl +:+ nl] ++
      flat_map (contribution program) [1; 2; 3] ∧
    w_files (world (script program machine)) !! output_file_of name =
      Some (join (["// Decompiled code for " +:+ name +:+ nl;
                   "// Language: " +:+ lang +:+ nl +:+ nl] ++
                  flat_map (contribution program) [1; 2; 3])) ∧
    (∀ func, func ∈ [1; 2; 3] →
       ∃ r, decompileFunction program func 0 = Ok r ∧
         (decompileCompleted r = true →
            ∃ d, getDecompiledFunction r = Some d ∧
                 contribution program func = [getC d; nl +:+ nl]) ∧
         (decompileCompleted r = false → contribution program func = [])) ∧
    w_stdout (world (script program machine)) =
      w_stdout machine +:+ "Decompiled code written to " +:+
      output_file_of name +:+ nl.
Proof.
  split; [reflexivity|]. split; [vm_compute; reflexivity|].
  apply (proj1 (written_iff_completed program machine) [1; 2; 3]).
  - reflexivity.
  - vm_compute. reflexivity.
Defined.

Lemma decompiled_once_in_order_witness :
  getFunctions program true = Ok [1; 2; 3] ∧
  out (script program machine) = Ok tt ∧
  requests (log (script program machine)) = [(1, 0%Z); (2, 0%Z); (3, 0%Z)].
Proof.
  split; [reflexivity|]. split; [vm_compute; reflexivity|].
  apply (proj1 (decompiled_once_in_order program machine [1; 2; 3] eq_refl)).
  vm_compute. reflexivity.
Defined.





Lemma file_opened_once_closed_always_witness :
  out (script program machine) = Ok tt ∧
  ∃ p f ws,
    List.filter is_file_event (log (script program machine)) =
      Ev (COpen p ModeW) None :: ws ++ [Ev (CClose f) None] ∧
    Forall (fun ev => ∃ s r, ev = Ev (CWrite f s) r) ws.
Proof.
  assert (out (script program machine) = Ok tt) as Hok
    by (vm_compute; reflexivity).
  split; [exact Hok|].
  exact (proj1 (proj2 (file_opened_once_closed_always program machine)) Hok).
Defined.

Lemma host_objects_only_read_witness :
  getName program = Ok "libfoo.so" ∧
  w_files other_machine !! "/tmp/log" = None ∧
  w_files (world (script program other_machine)) !! "/tmp/log" =
    w_files other_machine !! "/tmp/log".
Proof.
  split; [reflexivity|]. split; [vm_compute; reflexivity|].
  destruct (host_objects_only_read program other_machine)
    as (_ & _ & _ & _ & _ & _ & Hq & _).
  apply Hq. intros name Hname.
  assert (name = "libfoo.so") as -> by (vm_compute in Hname; congruence).
  vm_compute. discriminate.
Defined.

Lemma rerun_overwrites_witness :
  getName program = Ok "libfoo.so" ∧
  w_files other_machine !! output_file_of "libfoo.so" = Some "stale" ∧
  out (script program other_machine) = Ok tt ∧
  out (script program (world (script program other_machine))) = Ok tt ∧
  w_files (world (script program (world (script program other_machine))))
    !! output_file_of "libfoo.so" =
  w_files (world (script program other_machine)) !! output_file_of "libfoo.so".
Proof.
  assert (out (script program other_machine) = Ok tt) as H1
    by (vm_compute; reflexivity).
  assert (out (script program (world (script program other_machine))) = Ok tt) as H2
    by (vm_compute; reflexivity).
  split; [reflexivity|]. split; [vm_compute; reflexivity|].
  split; [exact H1|]. split; [exact H2|].
  exact (proj2 (rerun_overwrites program other_machine "libfoo.so" eq_refl H1) H2).
Defined.

Lemma no_functions_header_only_witness :
  accepts other_machine ["// Decompiled code for " +:+ "libfoo.so" +:+ nl;
                         "// Language: " +:+ "AARCH64:LE:64:v8A" +:+ nl +:+ nl] ∧
  out (script empty_program other_machine) = Ok tt ∧
  w_files (world (script empty_program other_machine)) !! output_file_of "libfoo.so" =
    Some ("// Decompiled code for " +:+ "libfoo.so" +:+ nl +:+
          "// Language: " +:+ "AARCH64:LE:64:v8A" +:+ nl +:+ nl) ∧
  w_stdout (world (script empty_program other_machine)) =
    w_stdout other_machine +:+ "Decompiled code written to " +:+
    output_file_of "libfoo.so" +:+ nl ∧
  requests (log (script empty_program other_machine)) = [].
Proof.
  assert (accepts other_machine
            ["// Decompiled code for " +:+ "libfoo.so" +:+ nl;
             "// Language: " +:+ "AARCH64:LE:64:v8A" +:+ nl +:+ nl]) as Hacc.
  { split; [|vm_compute; lia].
    apply Forall_cons_2; [vm_compute; reflexivity|].
    apply Forall_cons_2; [vm_compute; reflexivity|]. apply Forall_nil_2. }
  split; [exact Hacc|].
  apply (no_functions_header_only empty_program other_machine
           "libfoo.so" "AARCH64:LE:64:v8A" true).
  - reflexivity.
  - reflexivity.
  - reflexivity.
  - reflexivity.
  - vm_compute. discriminate.
  - vm_compute. reflexivity.
  - exact Hacc.
Defined.

Lemma dispose_after_close_witness :
  out (script program machine) = Ok tt ∧
  out (script program full_machine) = Raise OSError ∧
  (∃ pre f name,
     log (script program machine) =
       pre ++ [Ev (CClose f) None;
               Ev (CPrint ("Decompiled code written to " +:+ output_file_of name)) None;
               Ev CDispose None] ∧
     Forall (fun ev => is_dispose ev = false) pre) ∧
  Forall (fun ev => is_dispose ev = false) (log (script program full_machine)) ∧
  Ev (COpen (output_file_of "libfoo.so") ModeW) None
    ∈ log (script program full_machine) ∧
  ∃ f pre r content rest,
    log (script program full_machine) = pre ++ [Ev (CClose f) r] ∧
    w_files (world (script program full_machine)) !! output_file_of "libfoo.so" =
      Some content ∧
    join (taken f (log (script program full_machine))) = content +:+ rest ∧
    (r = None → rest = "").
Proof.
  assert (out (script program machine) = Ok tt) as H1
    by (vm_compute; reflexivity).
  assert (out (script program full_machine) = Raise OSError) as H2
    by (vm_compute; reflexivity).
  assert (Ev (COpen (output_file_of "libfoo.so") ModeW) None
            ∈ log (script program full_machine)) as H3
    by (vm_compute; repeat constructor).
  destruct (proj2 (dispose_after_close program full_machine) _ H2) as (Hnd & _ & Hfile).
  split; [exact H1|]. split; [exact H2|]. split.
  { exact (proj1 (dispose_after_close program machine) H1). }
  split; [exact Hnd|]. split; [exact H3|]. exact (Hfile _ H3).
Defined.

Lemma output_file_shape_witness :
  startswith_sep "libfoo.so" = false ∧
  output_file_of "libfoo.so" = output_dir +:+ "/" +:+ "libfoo.so" +:+ "_decomp.c" ∧
  startswith_sep "/tmp/libfoo.so" = true ∧
  output_file_of "/tmp/libfoo.so" = "/tmp/libfoo.so" +:+ "_decomp.c".
Proof.
  split; [reflexivity|]. split.
  { apply (proj1 (output_file_shape "libfoo.so")). reflexivity. }
  split; [reflexivity|].
  apply (proj1 (proj2 (output_file_shape "/tmp/libfoo.so"))). reflexivity.
Defined.

Lemma output_file_injective_witness :
  startswith_sep "libfoo.so" = false ∧ startswith_sep "libbar.so" = false ∧
  "libfoo.so" ≠ "libbar.so" ∧
  output_file_of "libfoo.so" ≠ output_file_of "libbar.so".
Proof.
  split; [reflexivity|]. split; [reflexivity|]. split; [discriminate|].
  apply (output_file_injective "libfoo.so" "libbar.so");
    [reflexivity|reflexivity|discriminate].
Defined.

Lemma output_file_dirname_witness :
  has_sep "libfoo.so" = false ∧
  os_path_dirname (output_file_of "libfoo.so") = output_dir.
Proof.
  split; [reflexivity|]. apply (output_file_dirname "libfoo.so"). reflexivity.
Defined.

Lemma early_failure_preserves_world_witness :
  getName unopenable = Ok "libfoo.so" ∧
  openProgram unopenable = Raise (HostException "DecompileException") ∧
  world (script unopenable other_machine) = other_machine ∧
  out (script program dir_machine) = Raise IsADirectoryError.
Proof.
  split; [reflexivity|]. split; [reflexivity|]. split.
  - destruct (early_failure_preserves_world unopenable other_machine)
      as (_ & Hopen & _).
    apply (Hopen "libfoo.so" (HostException "DecompileException")); reflexivity.
  - destruct (early_failure_preserves_world program dir_machine)
      as (_ & _ & Hdir & _).
    apply (Hdir "libfoo.so" true); [reflexivity|reflexivity|].
    vm_compute. reflexivity.
Defined.

Lemma language_failure_truncates_witness :
  w_files other_machine !! output_file_of "libfoo.so" = Some "stale" ∧
  accepts other_machine ["// Decompiled code for " +:+ "libfoo.so" +:+ nl] ∧
  out (script no_language other_machine) = Raise (HostException "no language") ∧
  w_files (world (script no_language other_machine)) !! output_file_of "libfoo.so" =
    Some ("// Decompiled code for " +:+ "libfoo.so" +:+ nl).
Proof.
  assert (accepts other_machine ["// Decompiled code for " +:+ "libfoo.so" +:+ nl])
    as Hacc.
  { split; [|vm_compute; lia].
    apply Forall_cons_2; [vm_compute; reflexivity|]. apply Forall_nil_2. }
  split; [vm_compute; reflexivity|]. split; [exact Hacc|].
  destruct (language_failure_truncates no_language other_machine "libfoo.so" true
              (HostException "no language")) as (Hout & Hfile & _).
  - reflexivity.
  - reflexivity.
  - reflexivity.
  - vm_compute. discriminate.
  - vm_compute. reflexivity.
  - exact Hacc.
  - split; [exact Hout|exact Hfile].
Defined.

Lemma openProgram_result_ignored_witness :
  openProgram program = Ok true ∧ openProgram program_unopened = Ok false ∧
  script program machine = script program_unopened machine.
Proof.
  split; [reflexivity|]. split; [reflexivity|].
  apply (openProgram_result_ignored program program_unopened machine true false);
    reflexivity.
Defined.

Lemma decompile_failure_stops_export_witness :
  out (script breaking other_machine) = Raise (HostException "decompiler crashed") ∧
  requests (log (script breaking other_machine)) = [(1, 0%Z); (2, 0%Z)] ∧
  w_files (world (script breaking other_machine)) !! output_file_of "libfoo.so" =
    Some ("// Decompiled code for " +:+ "libfoo.so" +:+ nl +:+
          "// Language: " +:+ "AARCH64:LE:64:v8A" +:+ nl +:+ nl +:+
          join ((fun code => code +:+ nl +:+ nl) <$> omap (completed_code breaking) [1])).
Proof.
  destruct (decompile_failure_stops_export breaking other_machine "libfoo.so" true
              "AARCH64:LE:64:v8A" [1] 2 [3] (HostException "decompiler crashed"))
    as (Hout & Hreq & Hfile & _).
  - reflexivity.
  - reflexivity.
  - reflexivity.
  - reflexivity.
  - apply Forall_cons_2; [|apply Forall_nil_2].
    eexists. split; [reflexivity|]. cbn. eauto.
  - reflexivity.
  - vm_compute. discriminate.
  - vm_compute. reflexivity.
  - split; [|vm_compute; lia].
    apply Forall_cons_2; [vm_compute; reflexivity|].
    apply Forall_cons_2; [vm_compute; reflexivity|].
    change (flat_map (contribution breaking) [1])
      with ["int f(void) { return 0; }"; nl +:+ nl].
    apply Forall_cons_2; [vm_compute; reflexivity|].
    apply Forall_cons_2; [vm_compute; reflexivity|]. apply Forall_nil_2.
  - split; [exact Hout|]. split; [exact Hreq|exact Hfile].
Defined.

Lemma completed_without_function_raises_witness :
  decompileFunction hollow_program 1 0 = Ok hollow ∧
  out (loop_body hollow_program 0 1 machine) = Raise AttributeError ∧
  world (loop_body hollow_program 0 1 machine) = machine.
Proof.
  split; [reflexivity|].
  rewrite (completed_without_function_raises hollow_program 0 1 machine hollow);
    [|reflexivity|reflexivity|reflexivity].
  split; reflexivity.
Defined.

Lemma header_lines_witness :
  has_nl "libfoo.so" = false ∧ has_nl "AARCH64:LE:64:v8A" = false ∧
  out (script program machine) = Ok tt ∧
  ∃ content rest,
    w_files (world (script program machine)) !! output_file_of "libfoo.so" =
      Some content ∧
    split_nl content =
      ("// Decompiled code for " +:+ "libfoo.so") ::
      ("// Language: " +:+ "AARCH64:LE:64:v8A") :: "" :: rest.
Proof.
  split; [reflexivity|]. split; [reflexivity|].
  assert (out (script program machine) = Ok tt) as Hok by (vm_compute; reflexivity).
  split; [exact Hok|].
  apply (header_lines program machine "libfoo.so" "AARCH64:LE:64:v8A");
    [reflexivity|reflexivity|reflexivity|reflexivity|exact Hok].
Defined.

Lemma failed_run_prints_nothing_witness :
  out (script program full_machine) = Raise OSError ∧
  w_stdout (world (script program full_machine)) = w_stdout full_machine.
Proof.
  assert (out (script program full_machine) = Raise OSError) as Hout
    by (vm_compute; reflexivity).
  split; [exact Hout|].
  exact (proj1 (failed_run_prints_nothing program full_machine OSError Hout)).
Defined.

End Samples.
